(** * Highlights & Comments Sidebar: the parser, the sort helper, the search
      filter, the settings model and the section renderer of [src/main.ts],
      embedded as Rocq functions, with the properties of the specification
      stated and settled against them.

    Conventions of the embedding.
    - A JavaScript string is the list of its UTF-16 code units ([jsstring]);
      [js] turns an ASCII literal into such a list.
    - Line numbers, columns and lengths are [nat]; comparator results are [Z].
    - The font size is an integer ([Z]), as the slider with its step of 1 and
      the default 13 produce it; a stored size that is not an integer is not
      covered.
    - A [SortOrder] is the run-time string the [switch] of [sortItems]
      inspects, so that values outside the four known literals exist.
    - The two host functions whose definition is the Unicode data base,
      [String.prototype.toLowerCase] and [String.prototype.localeCompare],
      are Section variables; ASCII stand-ins close the concrete examples. *)

From Stdlib Require Import List Bool Arith NArith ZArith Lia.
From Stdlib Require Import Ascii String.
From Stdlib Require Import Sorted Permutation.
Import ListNotations.

Set Implicit Arguments.

(* ------------------------------------------------------------------------- *)
(** ** Strings as sequences of UTF-16 code units *)

Definition jsstring := list N.

Definition js (s : string) : jsstring :=
  map N_of_ascii (list_ascii_of_string s).

Definition cu (a : ascii) : N := N_of_ascii a.

(** [s.substring(a, b)] for [a <= b <= s.length]. *)
Definition substring (s : jsstring) (a b : nat) : jsstring :=
  firstn (b - a) (skipn a s).

(** ECMAScript LineTerminator: LF, CR, LS (U+2028), PS (U+2029). *)
Definition isLineTerminator (c : N) : bool :=
  ((c =? 10) || (c =? 13) || (c =? 8232) || (c =? 8233))%N.

(** ECMAScript WhiteSpace or LineTerminator: the characters removed by
    [String.prototype.trim] and matched by [\s]. *)
Definition isWhiteSpace (c : N) : bool :=
  ((c =? 9) || (c =? 11) || (c =? 12) || (c =? 32) || (c =? 160)
   || (c =? 5760) || ((8192 <=? c) && (c <=? 8202))
   || (c =? 8239) || (c =? 8287) || (c =? 12288) || (c =? 65279))%N
  || isLineTerminator c.

Fixpoint dropWhile (p : N -> bool) (s : jsstring) : jsstring :=
  match s with
  | [] => []
  | c :: s' => if p c then dropWhile p s' else s
  end.

Definition trimStart (s : jsstring) : jsstring := dropWhile isWhiteSpace s.
Definition trimEnd (s : jsstring) : jsstring :=
  rev (dropWhile isWhiteSpace (rev s)).
Definition trim (s : jsstring) : jsstring := trimEnd (trimStart s).

Fixpoint startsWith (needle s : jsstring) : bool :=
  match needle, s with
  | [], _ => true
  | _ :: _, [] => false
  | a :: n', b :: s' => (a =? b)%N && startsWith n' s'
  end.

(** [s.includes(needle)]. *)
Fixpoint includes (s needle : jsstring) : bool :=
  startsWith needle s ||
  match s with
  | [] => false
  | _ :: s' => includes s' needle
  end.

(** [content.split("\n")]: always at least one line. *)
Fixpoint splitOn (sep : N) (s : jsstring) : list jsstring :=
  match s with
  | [] => [[]]
  | c :: s' =>
      if (c =? sep)%N then [] :: splitOn sep s'
      else match splitOn sep s' with
           | l :: ls => (c :: l) :: ls
           | [] => [[c]]
           end
  end.

(* ------------------------------------------------------------------------- *)
(** ** The regular expressions of [parseContent]

    The five patterns are sequences of one-character atoms, starred
    one-character atoms (lazy or greedy) and capture parentheses.  [run] is
    the backtracking matcher of ECMAScript on that fragment: a greedy star
    first tries one more character and falls back to the continuation, a
    lazy star first tries the continuation and falls back to one more
    character. *)

Inductive atom : Type :=
| One (p : N -> bool)
| Star (greedy : bool) (p : N -> bool)
| Mark.

(** Position reached and the capture boundaries seen, oldest first. *)
Definition outcome : Type := (nat * list nat)%type.

(** [star g p k]: zero or more characters satisfying [p], then the
    continuation [k]. *)
Fixpoint star (g : bool) (p : N -> bool)
  (k : jsstring -> nat -> option outcome) (s : jsstring) (pos : nat)
  {struct s} : option outcome :=
  match s with
  | c :: s' =>
      if p c then
        if g then
          match star g p k s' (S pos) with
          | Some o => Some o
          | None => k s pos
          end
        else
          match k s pos with
          | Some o => Some o
          | None => star g p k s' (S pos)
          end
      else k s pos
  | [] => k s pos
  end.

Fixpoint run (its : list atom) (s : jsstring) (pos : nat) (marks : list nat)
  {struct its} : option outcome :=
  match its with
  | [] => Some (pos, marks)
  | One p :: r =>
      match s with
      | c :: s' => if p c then run r s' (S pos) marks else None
      | [] => None
      end
  | Mark :: r => run r s pos (marks ++ [pos])
  | Star g p :: r => star g p (fun s1 pos1 => run r s1 pos1 marks) s pos
  end.

(** One element of the iterator returned by [line.matchAll(re)]. *)
Record rmatch : Type := mkMatch {
  m_index : nat;            (* m.index *)
  m_end : nat;              (* m.index + m[0].length *)
  m_marks : list nat        (* boundaries of m[1], m[2], ... *)
}.

Definition m_length (m : rmatch) : nat := m_end m - m_index m.

(** [m[k]] for [k >= 1], over the line the match was found in. *)
Definition group (line : jsstring) (m : rmatch) (k : nat) : jsstring :=
  substring line (nth (2 * k - 2) (m_marks m) 0) (nth (2 * k - 1) (m_marks m) 0).

(** The loop of [matchAll] with the [g] flag.  [s] is the line from [pos]
    on; [skip] counts the positions still covered by the previous match
    ([lastIndex] is [pos + skip]).  A match is attempted at every position
    from [lastIndex] up to and including the end of the line; after a match
    [lastIndex] becomes its end, or one more than its start when it is
    empty. *)
Fixpoint scan (its : list atom) (s : jsstring) (pos skip : nat) : list rmatch :=
  match skip with
  | S k =>
      match s with
      | [] => []
      | _ :: s' => scan its s' (S pos) k
      end
  | O =>
      match run its s pos [] with
      | Some (e, marks) =>
          mkMatch pos e marks ::
          match s with
          | [] => []
          | _ :: s' => scan its s' (S pos) (Nat.pred (e - pos))
          end
      | None =>
          match s with
          | [] => []
          | _ :: s' => scan its s' (S pos) 0
          end
      end
  end.

Definition matchAll (its : list atom) (line : jsstring) : list rmatch :=
  scan its line 0 0.

(** Atoms. *)
Definition chr (a : ascii) : atom := One (fun c => (c =? cu a)%N).

(** A letter of a pattern under the [i] flag (without [u]): Canonicalize
    maps a code unit to its upper case unless that would turn a non-ASCII
    unit into an ASCII one, so an ASCII letter matches exactly its two
    ASCII cases.  [a] is the lower-case letter. *)
Definition chrI (a : ascii) : atom :=
  One (fun c => (c =? cu a)%N || (c =? cu a - 32)%N).

(** [.] without the [s] flag. *)
Definition dot (c : N) : bool := negb (isLineTerminator c).

Definition notRBracket (c : N) : bool := negb (c =? cu "]")%N.

(** [/==(.*?)==/g] *)
Definition reHighlight : list atom :=
  [chr "="; chr "="; Mark; Star false dot; Mark; chr "="; chr "="].

(** [/<mark>(.*?)<\/mark>/gi] *)
Definition reMark : list atom :=
  [chr "<"; chrI "m"; chrI "a"; chrI "r"; chrI "k"; chr ">";
   Mark; Star false dot; Mark;
   chr "<"; chr "/"; chrI "m"; chrI "a"; chrI "r"; chrI "k"; chr ">"].

(** [/%%(.*?)%%/g] *)
Definition reComment : list atom :=
  [chr "%"; chr "%"; Mark; Star false dot; Mark; chr "%"; chr "%"].

(** [/<!--(.*?)-->/g] *)
Definition reHtmlComment : list atom :=
  [chr "<"; chr "!"; chr "-"; chr "-"; Mark; Star false dot; Mark;
   chr "-"; chr "-"; chr ">"].

(** The footnote pattern with the [g] flag: [\[\^], a group of one or more
    characters other than a closing bracket, [\]:], greedy [\s] star, and a
    group holding a greedy dot star. *)
Definition reFootnote : list atom :=
  [chr "["; chr "^"; Mark; One notRBracket; Star true notRBracket; Mark;
   chr "]"; chr ":"; Star true isWhiteSpace; Mark; Star true dot; Mark].

(* ------------------------------------------------------------------------- *)
(** ** The parser *)

Inductive ItemType : Type := highlight | comment | footnote.

Definition ItemType_eqb (a b : ItemType) : bool :=
  match a, b with
  | highlight, highlight | comment, comment | footnote, footnote => true
  | _, _ => false
  end.

Record ParsedItem : Type := mkItem {
  type : ItemType;
  text : jsstring;
  line : nat;
  ch : nat;
  matchLength : nat
}.

(** The body of the [for] loop over the lines: the five [matchAll] loops,
    in the order of the source. *)
Definition parseLine (lineIdx : nat) (l : jsstring) : list ParsedItem :=
  map (fun m => mkItem highlight (group l m 1) lineIdx (m_index m) (m_length m))
      (matchAll reHighlight l)
  ++ map (fun m => mkItem highlight (group l m 1) lineIdx (m_index m) (m_length m))
      (matchAll reMark l)
  ++ map (fun m => mkItem comment (trim (group l m 1)) lineIdx (m_index m) (m_length m))
      (matchAll reComment l)
  ++ map (fun m => mkItem comment (trim (group l m 1)) lineIdx (m_index m) (m_length m))
      (matchAll reHtmlComment l)
  ++ map (fun m => mkItem footnote
                     (js "[^" ++ group l m 1 ++ js "]: " ++ group l m 2)
                     lineIdx (m_index m) (m_length m))
      (matchAll reFootnote l).

Fixpoint parseLines (lineIdx : nat) (lines : list jsstring) : list ParsedItem :=
  match lines with
  | [] => []
  | l :: rest => parseLine lineIdx l ++ parseLines (S lineIdx) rest
  end.

Definition parseContent (content : jsstring) : list ParsedItem :=
  parseLines 0 (splitOn 10 content).

Definition nl : string := String (ascii_of_nat 10) EmptyString.
Definition cr : string := String (ascii_of_nat 13) EmptyString.

(* ------------------------------------------------------------------------- *)
(** ** The sort helper *)

(** The run-time value of a [SortOrder]: one of ["line-asc"], ["line-desc"],
    ["a-z"], ["z-a"] when the type is respected, any string otherwise. *)
Definition SortOrder := string.
Bind Scope string_scope with SortOrder.

Definition knownSortOrder (o : SortOrder) : bool :=
  (o =? "line-asc")%string || (o =? "line-desc")%string
  || (o =? "a-z")%string || (o =? "z-a")%string.

(** [x || y] on numbers: [x] unless it is zero. *)
Definition jsOr (x y : Z) : Z := if (x =? 0)%Z then y else x.

Definition cmpLineAsc (a b : ParsedItem) : Z :=
  jsOr (Z.of_nat (line a) - Z.of_nat (line b)) (Z.of_nat (ch a) - Z.of_nat (ch b)).

Definition cmpLineDesc (a b : ParsedItem) : Z :=
  jsOr (Z.of_nat (line b) - Z.of_nat (line a)) (Z.of_nat (ch b) - Z.of_nat (ch a)).

(** [Array.prototype.sort(cmp)] is a stable sort: an element moves in front
    of another one only when the comparator is positive on them in their
    original order.  Insertion from the right is such a sort. *)
Section ArraySort.
Variable A : Type.
Variable cmp : A -> A -> Z.

Fixpoint insertBy (x : A) (l : list A) : list A :=
  match l with
  | [] => [x]
  | y :: l' => if (cmp x y <=? 0)%Z then x :: l else y :: insertBy x l'
  end.

Fixpoint sortBy (l : list A) : list A :=
  match l with
  | [] => []
  | x :: l' => insertBy x (sortBy l')
  end.
End ArraySort.

Section Host.

(** [s.toLowerCase()] *)
Variable toLowerCase : jsstring -> jsstring.
(** [a.localeCompare(b, undefined, { sensitivity: "base" })] *)
Variable localeCompare : jsstring -> jsstring -> Z.

Definition sortItems (items : list ParsedItem) (order : SortOrder)
  : list ParsedItem :=
  let sorted := items in
  if (order =? "line-asc")%string then sortBy cmpLineAsc sorted
  else if (order =? "line-desc")%string then sortBy cmpLineDesc sorted
  else if (order =? "a-z")%string then
    sortBy (fun a b => localeCompare (text a) (text b)) sorted
  else if (order =? "z-a")%string then
    sortBy (fun a b => localeCompare (text b) (text a)) sorted
  else sorted.

(* ----------------------------------------------------------------------- *)
(** ** Settings *)

(** A [Record<ItemType, A>]. *)
Record PerType (A : Type) : Type := mkPerType {
  of_highlight : A;
  of_comment : A;
  of_footnote : A
}.

Definition getPer (A : Type) (r : PerType A) (t : ItemType) : A :=
  match t with
  | highlight => of_highlight r
  | comment => of_comment r
  | footnote => of_footnote r
  end.

Definition setPer (A : Type) (r : PerType A) (t : ItemType) (v : A) : PerType A :=
  match t with
  | highlight => mkPerType v (of_comment r) (of_footnote r)
  | comment => mkPerType (of_highlight r) v (of_footnote r)
  | footnote => mkPerType (of_highlight r) (of_comment r) v
  end.

Record HighlightsSidebarSettings : Type := mkSettings {
  fontSize : Z;
  showHighlights : bool;
  showComments : bool;
  showFootnotes : bool;
  defaultSort : SortOrder;
  sectionsCollapsed : PerType bool;
  sectionSorts : PerType SortOrder
}.

Definition DEFAULT_SETTINGS : HighlightsSidebarSettings :=
  mkSettings 13 true true true "line-asc"
    (mkPerType false false false)
    (mkPerType "line-asc" "line-asc" "line-asc")%string.

(** What [loadData()] resolves to when it is an object: every key may be
    missing, also inside the two nested records. *)
Record PersistedData : Type := mkData {
  d_fontSize : option Z;
  d_showHighlights : option bool;
  d_showComments : option bool;
  d_showFootnotes : option bool;
  d_defaultSort : option SortOrder;
  d_sectionsCollapsed : option (PerType (option bool));
  d_sectionSorts : option (PerType (option SortOrder))
}.

Definition emptyData : PersistedData :=
  mkData None None None None None None None.

(** One key of [Object.assign({}, defaults, data)]. *)
Definition assignKey (A : Type) (dflt : A) (v : option A) : A :=
  match v with
  | Some x => x
  | None => dflt
  end.

(** [Object.assign({}, defaults, data?.nested)] on a [Record<ItemType, A>]. *)
Definition assignPer (A : Type) (dflt : PerType A)
  (v : option (PerType (option A))) : PerType A :=
  match v with
  | Some r =>
      mkPerType (assignKey (of_highlight dflt) (of_highlight r))
                (assignKey (of_comment dflt) (of_comment r))
                (assignKey (of_footnote dflt) (of_footnote r))
  | None => dflt
  end.

(** [loadSettings]; [None] is [loadData()] resolving to [null]. *)
Definition loadSettings (data : option PersistedData) : HighlightsSidebarSettings :=
  match data with
  | None => DEFAULT_SETTINGS
  | Some d =>
      mkSettings
        (assignKey (fontSize DEFAULT_SETTINGS) (d_fontSize d))
        (assignKey (showHighlights DEFAULT_SETTINGS) (d_showHighlights d))
        (assignKey (showComments DEFAULT_SETTINGS) (d_showComments d))
        (assignKey (showFootnotes DEFAULT_SETTINGS) (d_showFootnotes d))
        (assignKey (defaultSort DEFAULT_SETTINGS) (d_defaultSort d))
        (assignPer (sectionsCollapsed DEFAULT_SETTINGS) (d_sectionsCollapsed d))
        (assignPer (sectionSorts DEFAULT_SETTINGS) (d_sectionSorts d))
  end.

Definition withFontSize (s : HighlightsSidebarSettings) (v : Z) :=
  mkSettings v (showHighlights s) (showComments s) (showFootnotes s)
    (defaultSort s) (sectionsCollapsed s) (sectionSorts s).

(** The command "Increase sidebar font size". *)
Definition increaseFontSize (s : HighlightsSidebarSettings) :=
  withFontSize s (Z.min 24 (fontSize s + 1)).

(** The command "Decrease sidebar font size". *)
Definition decreaseFontSize (s : HighlightsSidebarSettings) :=
  withFontSize s (Z.max 10 (fontSize s - 1)).

(** [onChange] of the "Default sort order" dropdown of the settings tab. *)
Definition onDefaultSortChange (value : SortOrder)
  (s : HighlightsSidebarSettings) : HighlightsSidebarSettings :=
  let newSort := value in
  let s1 := mkSettings (fontSize s) (showHighlights s) (showComments s)
              (showFootnotes s) newSort (sectionsCollapsed s) (sectionSorts s) in
  let s2 := mkSettings (fontSize s1) (showHighlights s1) (showComments s1)
              (showFootnotes s1) (defaultSort s1) (sectionsCollapsed s1)
              (setPer (sectionSorts s1) highlight newSort) in
  let s3 := mkSettings (fontSize s2) (showHighlights s2) (showComments s2)
              (showFootnotes s2) (defaultSort s2) (sectionsCollapsed s2)
              (setPer (sectionSorts s2) comment newSort) in
  mkSettings (fontSize s3) (showHighlights s3) (showComments s3)
    (showFootnotes s3) (defaultSort s3) (sectionsCollapsed s3)
    (setPer (sectionSorts s3) footnote newSort).

(** The sort menu of a section header: one section only. *)
Definition onSectionSortPick (t : ItemType) (order : SortOrder)
  (s : HighlightsSidebarSettings) : HighlightsSidebarSettings :=
  mkSettings (fontSize s) (showHighlights s) (showComments s)
    (showFootnotes s) (defaultSort s) (sectionsCollapsed s)
    (setPer (sectionSorts s) t order).

Definition isSectionVisible (s : HighlightsSidebarSettings) (t : ItemType) : bool :=
  match t with
  | highlight => showHighlights s
  | comment => showComments s
  | footnote => showFootnotes s
  end.

Definition toggleSectionVisibility (t : ItemType)
  (s : HighlightsSidebarSettings) : HighlightsSidebarSettings :=
  match t with
  | highlight =>
      mkSettings (fontSize s) (negb (showHighlights s)) (showComments s)
        (showFootnotes s) (defaultSort s) (sectionsCollapsed s) (sectionSorts s)
  | comment =>
      mkSettings (fontSize s) (showHighlights s) (negb (showComments s))
        (showFootnotes s) (defaultSort s) (sectionsCollapsed s) (sectionSorts s)
  | footnote =>
      mkSettings (fontSize s) (showHighlights s) (showComments s)
        (negb (showFootnotes s)) (defaultSort s) (sectionsCollapsed s) (sectionSorts s)
  end.

(* ----------------------------------------------------------------------- *)
(** ** The search filter and the sections of [renderSections] *)

(** [this.searchQuery.toLowerCase().trim()] *)
Definition normalizeQuery (searchQuery : jsstring) : jsstring :=
  trim (toLowerCase searchQuery).

Definition filterItems (allItems : list ParsedItem) (searchQuery : jsstring)
  : list ParsedItem :=
  let query := normalizeQuery searchQuery in
  if 0 <? List.length query
  then filter (fun item => includes (toLowerCase (text item)) query) allItems
  else allItems.

(** [groups[t]] after the loop pushing every filtered item on its group. *)
Definition groupOf (filteredItems : list ParsedItem) (t : ItemType)
  : list ParsedItem :=
  filter (fun item => ItemType_eqb (type item) t) filteredItems.

Record SectionMeta : Type := mkMeta {
  meta_type : ItemType;
  meta_label : string;
  meta_icon : string
}.

Definition sectionMeta : list SectionMeta :=
  [mkMeta highlight "Highlights" "highlighter";
   mkMeta comment "Comments" "message-square";
   mkMeta footnote "Footnotes" "footnote"].

(** What one iteration of the section loop puts on the page: the header
    with the count of the group and the sort button, the collapsed flag,
    and one row per sorted item. *)
Record SectionView : Type := mkSection {
  sv_type : ItemType;
  sv_label : string;
  sv_count : nat;
  sv_sort : SortOrder;
  sv_collapsed : bool;
  sv_rows : list ParsedItem
}.

Inductive Rendered : Type :=
| EmptyMessage (msg : string)
| Sections (secs : list SectionView).

(** [a || b] on strings: [a] unless it is empty. *)
Definition strOr (a b : string) : string :=
  if (a =? "")%string then b else a.

Definition renderSection (settings : HighlightsSidebarSettings)
  (filteredItems : list ParsedItem) (sec : SectionMeta) : list SectionView :=
  if negb (isSectionVisible settings (meta_type sec)) then []
  else
    let groupItems := groupOf filteredItems (meta_type sec) in
    if List.length groupItems =? 0 then []
    else
      let sortOrder :=
        strOr (getPer (sectionSorts settings) (meta_type sec))
              (defaultSort settings) in
      let sortedItems := sortItems groupItems sortOrder in
      let collapsed := getPer (sectionsCollapsed settings) (meta_type sec) in
      [mkSection (meta_type sec) (meta_label sec) (List.length groupItems)
         sortOrder collapsed sortedItems].

Definition renderSections (settings : HighlightsSidebarSettings)
  (searchQuery : jsstring) (allItems : list ParsedItem) : Rendered :=
  let query := normalizeQuery searchQuery in
  let filteredItems := filterItems allItems searchQuery in
  if (List.length filteredItems =? 0) && (List.length allItems =? 0) then
    EmptyMessage "No highlights, comments, or footnotes found."
  else if (List.length filteredItems =? 0) && (0 <? List.length query) then
    EmptyMessage "No matching items."
  else
    Sections (flat_map (renderSection settings filteredItems) sectionMeta).

(** [renderContent]: [None] when no Markdown view is active. *)
Definition renderContent (settings : HighlightsSidebarSettings)
  (searchQuery : jsstring) (activeContent : option jsstring) : Rendered :=
  match activeContent with
  | None =>
      EmptyMessage "Open a note to see its highlights, comments, and footnotes."
  | Some content => renderSections settings searchQuery (parseContent content)
  end.

End Host.

(** ASCII stand-ins for the two host functions, exact on ASCII letters for
    [toLowerCase]; they only serve to evaluate the definitions above on
    concrete ASCII inputs. *)
Definition asciiLowerChar (c : N) : N :=
  if ((65 <=? c) && (c <=? 90))%N then (c + 32)%N else c.

Definition asciiLower (s : jsstring) : jsstring := map asciiLowerChar s.

Fixpoint compareUnits (a b : jsstring) : Z :=
  match a, b with
  | [], [] => 0
  | [], _ :: _ => -1
  | _ :: _, [] => 1
  | x :: a', y :: b' =>
      if (x <? y)%N then -1 else if (y <? x)%N then 1 else compareUnits a' b'
  end.

Definition asciiCompare (a b : jsstring) : Z :=
  compareUnits (asciiLower a) (asciiLower b).

Definition hasSection (r : Rendered) (t : ItemType) : bool :=
  match r with
  | EmptyMessage _ => false
  | Sections secs => existsb (fun s => ItemType_eqb (sv_type s) t) secs
  end.

(** Inputs of the examples. *)
Definition example1 : jsstring :=
  js ("==alpha== and <mark>beta</mark>" ++ nl ++ "%%note one%%" ++ nl
      ++ "[^1]: see appendix").

Definition dataFontSize (v : Z) : PersistedData :=
  mkData (Some v) None None None None None None.

Definition twoLines : list ParsedItem :=
  [ mkItem highlight (js "b") 1 0 5; mkItem highlight (js "a") 0 0 5 ].

(** Order-preserving selection: [l1] is [l2] with some elements removed. *)
Inductive Subseq (A : Type) : list A -> list A -> Prop :=
| Subseq_nil : Subseq [] []
| Subseq_skip : forall x l1 l2, Subseq l1 l2 -> Subseq l1 (x :: l2)
| Subseq_keep : forall x l1 l2, Subseq l1 l2 -> Subseq (x :: l1) (x :: l2).

(** [hay] contains [needle] as a contiguous substring. *)
Definition Contains (hay needle : jsstring) : Prop :=
  exists pre post, hay = pre ++ needle ++ post.

(** No white space or line terminator at the front, respectively the end. *)
Definition noLeadingSpace (s : jsstring) : bool :=
  match s with
  | [] => true
  | c :: _ => negb (isWhiteSpace c)
  end.

Definition noTrailingSpace (s : jsstring) : bool := noLeadingSpace (rev s).

(** Records that share a line follow each other in non-decreasing column
    order. *)
Fixpoint inColumnOrder (l : list ParsedItem) : bool :=
  match l with
  | [] => true
  | a :: r =>
      match r with
      | [] => true
      | b :: _ => (if line a =? line b then ch a <=? ch b else true)
                  && inColumnOrder r
      end
  end.

Definition lineLe (a b : ParsedItem) : Prop := line a <= line b.

Definition lineAscLe (a b : ParsedItem) : Prop := (cmpLineAsc a b <= 0)%Z.

Definition isFootnote (it : ParsedItem) : bool := ItemType_eqb (type it) footnote.

(** The Footnote records of line [i]. *)
Definition footnotesOn (i : nat) (items : list ParsedItem) : list ParsedItem :=
  filter (fun it => isFootnote it && (line it =? i)) items.

(** No CR, LS or PS: together with the split at LF, no line then holds a
    line terminator. *)
Definition onlyLfTerminators (content : jsstring) : bool :=
  forallb (fun c => negb ((c =? 13) || (c =? 8232) || (c =? 8233))%N) content.

Definition crLine : jsstring := js ("[^a]: x" ++ cr ++ "[^b]: y").

Definition twoDefinitions : jsstring := js ("==h==" ++ nl ++ "x [^1]: a [^2]: b").

(** The same with LINE SEPARATOR (U+2028) in place of the CR. *)
Definition lsLine : jsstring := js "[^a]: x" ++ [8232%N] ++ js "[^b]: y".

(** The shape of a footnote definition inside a line: [pre], then the
    bracket, the caret, a non-empty identifier without closing bracket, the
    closing bracket and the colon, a run of white space, and [body] up to the
    end of the line. *)
Definition FootnoteShape (l pre id ws body : jsstring) : Prop :=
  l = pre ++ js "[^" ++ id ++ js "]:" ++ ws ++ body
  /\ id <> []
  /\ Forall (fun c => notRBracket c = true) id
  /\ Forall (fun c => isWhiteSpace c = true) ws.

(** No footnote definition of [l] starts left of column [col]. *)
Definition NoFootnoteBefore (l : jsstring) (col : nat) : Prop :=
  forall pre id ws body, FootnoteShape l pre id ws body -> col <= List.length pre.

(* ------------------------------------------------------------------------- *)
(** ** Scroll-to-source *)

Record EditorPosition : Type := mkPos {
  pos_line : nat;
  pos_ch : nat
}.

(** The calls [scrollToItem] makes on the editor of the active view. *)
Inductive EditorOp : Type :=
| SetCursor (p : EditorPosition)
| ScrollIntoView (from to : EditorPosition) (center : bool)
| SetSelection (anchor head : EditorPosition)
| Focus.

(** [scrollToItem]; [None] when no Markdown view is active. *)
Definition scrollToItem (activeContent : option jsstring) (item : ParsedItem)
  : list EditorOp :=
  match activeContent with
  | None => []
  | Some _ =>
      [ SetCursor (mkPos (line item) (ch item));
        ScrollIntoView (mkPos (line item) (ch item))
                       (mkPos (line item) (ch item + matchLength item)) true;
        SetSelection (mkPos (line item) (ch item))
                     (mkPos (line item) (ch item + matchLength item));
        Focus ]
  end.

(** The rows of all sections of a rendered sidebar. *)
Definition rowsOf (r : Rendered) : list ParsedItem :=
  match r with
  | EmptyMessage _ => []
  | Sections secs => flat_map (@sv_rows) secs
  end.

(** A selection inside the text [content]: both ends on one existing line,
    the head behind the anchor and not behind the end of the line. *)
Definition selectionInside (content : jsstring) (anchor head : EditorPosition) : Prop :=
  exists l, nth_error (splitOn 10 content) (pos_line anchor) = Some l
            /\ pos_line head = pos_line anchor
            /\ pos_ch anchor < pos_ch head <= List.length l.

(** Number of one-character atoms of a pattern: what a match consumes at
    least. *)
Fixpoint countOne (its : list atom) : nat :=
  match its with
  | [] => 0
  | One _ :: r => S (countOne r)
  | _ :: r => countOne r
  end.

(** None of the characters that open one of the five patterns. *)
Definition plainText (content : jsstring) : bool :=
  forallb (fun c => negb ((c =? cu "=") || (c =? cu "<") || (c =? cu "%")
                          || (c =? cu "["))%N) content.

(** The record [it] moved [n] lines down. *)
Definition shiftLine (n : nat) (it : ParsedItem) : ParsedItem :=
  mkItem (type it) (text it) (n + line it) (ch it) (matchLength it).

(** The class of a pattern character, and of a letter under the [i] flag
    (as in [chr] and [chrI]). *)
Definition isChr (a : ascii) : N -> bool := fun c => (c =? cu a)%N.
Definition isChrI (a : ascii) : N -> bool :=
  fun c => (c =? cu a)%N || (c =? cu a - 32)%N.

(** [cs] is matched, character by character, by the classes [ps]. *)
Definition sat (ps : list (N -> bool)) (cs : jsstring) : Prop :=
  Forall2 (fun p c => p c = true) ps cs.

(** The form of the four delimiter patterns: an opening literal, a group
    holding a lazy dot star, a closing literal. *)
Definition delimited (opens closes : list (N -> bool)) : list atom :=
  map One opens ++ [Mark; Star false dot; Mark] ++ map One closes.

Definition markOpen : list (N -> bool) :=
  [isChr "<"; isChrI "m"; isChrI "a"; isChrI "r"; isChrI "k"; isChr ">"].
Definition markClose : list (N -> bool) :=
  [isChr "<"; isChr "/"; isChrI "m"; isChrI "a"; isChrI "r"; isChrI "k"; isChr ">"].

(** The line [l] holds, from column [col] on, [o], [inner], [c] in a row,
    and [c] is the first closing delimiter behind [o]: no string matched by
    [closes] starts inside [inner]. *)
Definition DelimitedAt (closes : list (N -> bool)) (l : jsstring) (col : nat)
  (o inner c : jsstring) : Prop :=
  exists pre post,
    l = pre ++ o ++ inner ++ c ++ post
    /\ col = List.length pre
    /\ Forall (fun x => isLineTerminator x = false) inner
    /\ (forall a b, inner = a ++ b -> b <> [] ->
          forall c' t, b ++ c ++ post = c' ++ t -> ~ sat closes c').

(** From column [col] on, the line [l] reads [o], [inner], [c]. *)
Definition SpanAt (l : jsstring) (col : nat) (o inner c : jsstring) : Prop :=
  exists pre post, l = pre ++ o ++ inner ++ c ++ post /\ col = List.length pre.

Definition allSpace (s : jsstring) : Prop :=
  Forall (fun c => isWhiteSpace c = true) s.

Definition noTerminator (s : jsstring) : Prop :=
  Forall (fun c => isLineTerminator c = false) s.

(** The two line orders, as relations. *)
Definition lineThenColumn (a b : ParsedItem) : Prop :=
  line a < line b \/ (line a = line b /\ ch a <= ch b).

Definition lineThenColumnDesc (a b : ParsedItem) : Prop :=
  line b < line a \/ (line a = line b /\ ch b <= ch a).

(** The records at line [n], column [c]. *)
Definition atPosition (n c : nat) (it : ParsedItem) : bool :=
  (line it =? n) && (ch it =? c).

(** [a] may stand in front of [b] under the comparator [cmp]. *)
Definition cmpLe (A : Type) (cmp : A -> A -> Z) (a b : A) : Prop :=
  (cmp a b <= 0)%Z.

(** The sum of the counts shown in the section headers. *)
Definition totalCount (r : Rendered) : nat :=
  match r with
  | EmptyMessage _ => 0
  | Sections secs => list_sum (map (@sv_count) secs)
  end.

Definition sectionTypes (r : Rendered) : list ItemType :=
  match r with
  | EmptyMessage _ => []
  | Sections secs => map (@sv_type) secs
  end.

Definition sectionsOf (r : Rendered) : list SectionView :=
  match r with
  | EmptyMessage _ => []
  | Sections secs => secs
  end.

(* ------------------------------------------------------------------------- *)
(** ** Further actions on the settings *)

(** What [saveSettings] hands to [saveData]: the settings object, every key
    present. *)
Definition saveSettings (s : HighlightsSidebarSettings) : PersistedData :=
  mkData (Some (fontSize s)) (Some (showHighlights s)) (Some (showComments s))
    (Some (showFootnotes s)) (Some (defaultSort s))
    (Some (mkPerType (Some (of_highlight (sectionsCollapsed s)))
                     (Some (of_comment (sectionsCollapsed s)))
                     (Some (of_footnote (sectionsCollapsed s)))))
    (Some (mkPerType (Some (of_highlight (sectionSorts s)))
                     (Some (of_comment (sectionSorts s)))
                     (Some (of_footnote (sectionSorts s))))).

(** The menu entry "Show all sections". *)
Definition showAllSections (s : HighlightsSidebarSettings)
  : HighlightsSidebarSettings :=
  mkSettings (fontSize s) true true true (defaultSort s) (sectionsCollapsed s)
    (sectionSorts s).

(** A click on the header of a section. *)
Definition toggleSectionCollapsed (t : ItemType) (s : HighlightsSidebarSettings)
  : HighlightsSidebarSettings :=
  let isNowCollapsed := negb (getPer (sectionsCollapsed s) t) in
  mkSettings (fontSize s) (showHighlights s) (showComments s) (showFootnotes s)
    (defaultSort s) (setPer (sectionsCollapsed s) t isNowCollapsed)
    (sectionSorts s).

(** The sort order a section is rendered with. *)
Definition effectiveSort (s : HighlightsSidebarSettings) (t : ItemType) : SortOrder :=
  strOr (getPer (sectionSorts s) t) (defaultSort s).

(** The sections of the other categories. *)
Definition otherSections (t : ItemType) (r : Rendered) : list SectionView :=
  filter (fun v => negb (ItemType_eqb (sv_type v) t)) (sectionsOf r).

(* ------------------------------------------------------------------------- *)
(** ** The first version of the view (second part of [src/main.ts])

    [renderContent] before search, sorting and visibility were added: one
    section per category that has records, rows in the order of the parser,
    every section expanded. *)

Record SectionViewV1 : Type := mkSectionV1 {
  v1_type : ItemType;
  v1_label : string;
  v1_count : nat;
  v1_rows : list ParsedItem
}.

Inductive RenderedV1 : Type :=
| EmptyMessageV1 (msg : string)
| SectionsV1 (secs : list SectionViewV1).

Definition renderSectionV1 (items : list ParsedItem) (sec : SectionMeta)
  : list SectionViewV1 :=
  let groupItems := groupOf items (meta_type sec) in
  if List.length groupItems =? 0 then []
  else [mkSectionV1 (meta_type sec) (meta_label sec) (List.length groupItems)
          groupItems].

Definition renderContentV1 (activeContent : option jsstring) : RenderedV1 :=
  match activeContent with
  | None =>
      EmptyMessageV1 "Open a note to see its highlights, comments, and footnotes."
  | Some content =>
      let items := parseContent content in
      if List.length items =? 0 then
        EmptyMessageV1 "No highlights, comments, or footnotes found."
      else SectionsV1 (flat_map (renderSectionV1 items) sectionMeta)
  end.

(** A section of the current view shows what a section of the first
    version showed, its rows sorted by the section's order. *)
Definition sameSection (lc : jsstring -> jsstring -> Z)
  (old : SectionViewV1) (new : SectionView) : Prop :=
  sv_type new = v1_type old
  /\ sv_label new = v1_label old
  /\ sv_count new = v1_count old
  /\ sv_rows new = sortItems lc (v1_rows old) (sv_sort new).

Definition sameView (lc : jsstring -> jsstring -> Z)
  (old : RenderedV1) (new : Rendered) : Prop :=
  match old, new with
  | EmptyMessageV1 m1, EmptyMessage m2 => m1 = m2
  | SectionsV1 s1, Sections s2 => Forall2 (sameSection lc) s1 s2
  | _, _ => False
  end.

(** No closing delimiter starts inside [inner]: wherever [inner] is cut
    into [a] and a non-empty [b], what follows the cut, [b] and then [tail],
    does not begin with a string that is a closing delimiter. *)
Definition NoCloserInside (isClose : jsstring -> Prop) (inner tail : jsstring)
  : Prop :=
  forall a b, inner = a ++ b -> b <> [] ->
    forall cl t, b ++ tail = cl ++ t -> ~ isClose cl.

(** [q] is [s] without the white space at its two ends: [s] is [q] between
    two runs of white space, and [q] neither starts nor ends with white
    space. *)
Definition IsTrimOf (s q : jsstring) : Prop :=
  exists a b, s = a ++ q ++ b
              /\ allSpace a /\ allSpace b
              /\ noLeadingSpace q = true /\ noTrailingSpace q = true.

(** Which of the five loops of the parser emits a record, read off the
    record and its line: a highlight that starts with [=] comes from the
    [==] loop, any other highlight from the [<mark>] loop; a comment that
    starts with [%] from the [%%] loop, any other one from the HTML comment
    loop; a footnote from the last loop. *)
Definition patternRank (l : jsstring) (it : ParsedItem) : nat :=
  match type it with
  | highlight =>
      match nth_error l (ch it) with
      | Some c => if (c =? cu "=")%N then 0 else 1
      | None => 1
      end
  | comment =>
      match nth_error l (ch it) with
      | Some c => if (c =? cu "%")%N then 2 else 3
      | None => 3
      end
  | footnote => 4
  end.

(** The scan order of the parser over the lines [lines]: first by line,
    within a line by loop, within a loop by column, strictly. *)
Definition scanBefore (lines : list jsstring) (a b : ParsedItem) : Prop :=
  line a < line b
  \/ (line a = line b
      /\ (patternRank (nth (line a) lines []) a < patternRank (nth (line a) lines []) b
          \/ (patternRank (nth (line a) lines []) a
              = patternRank (nth (line a) lines []) b
              /\ ch a < ch b))).

(** The order of the records of one line: by loop, then by column. *)
Definition rankColumnBefore (l : jsstring) (a b : ParsedItem) : Prop :=
  patternRank l a < patternRank l b
  \/ (patternRank l a = patternRank l b /\ ch a < ch b).

(** No record of a later loop starts left of a record of an earlier loop
    on the same line. *)
Definition noLaterLoopToTheLeft (lines : list jsstring) (items : list ParsedItem)
  : Prop :=
  forall a b, In a items -> In b items -> line a = line b ->
    patternRank (nth (line a) lines []) a < patternRank (nth (line a) lines []) b ->
    ch a <= ch b.

(* ========================================================================= *)
(** * Properties *)

(* ------------------------------------------------------------------------- *)
(** ** The worked example of the specification *)

(** C1: on the document [==alpha== and <mark>beta</mark>], [%%note one%%],
    [[^1]: see appendix] (three lines), [parseContent] returns exactly four
    records in this order: the highlight "alpha" at line 0, column 0; the
    highlight "beta" at line 0, column 14, which is where [<mark>] begins
    and not before; the comment "note one" at line 1, column 0; the footnote
    "[^1]: see appendix" at line 2, column 0. *)
Theorem parse_example1 :
  parseContent example1 =
    [ mkItem highlight (js "alpha") 0 0 9;
      mkItem highlight (js "beta") 0 14 17;
      mkItem comment (js "note one") 1 0 12;
      mkItem footnote (js "[^1]: see appendix") 2 0 18 ]
  /\ startsWith (js "<mark>") (skipn 14 example1) = true
  /\ includes (firstn (14 + 5) example1) (js "<mark>") = false.
Proof. vm_compute. repeat split. Qed.

(** The claim C2 as written fails: the second record of [==a==b==c==] is
    not "b". *)
Lemma aEqbEqc_second_is_not_b :
  map (@text) (parseContent (js "==a==b==c==")) <> [js "a"; js "b"].
Proof. vm_compute. discriminate. Qed.

(** C2 (amended): [==a==b==c==] yields exactly two highlights, "a" at
    column 0 and "c" at column 6, each spanning five characters: after the
    shortest match [==a==] the scan resumes behind it, where the next
    opening delimiter is the one in front of "c"; "b" lies between the two
    matches and yields no record. *)
Theorem parse_aEqbEqc :
  parseContent (js "==a==b==c==") =
    [ mkItem highlight (js "a") 0 0 5;
      mkItem highlight (js "c") 0 6 5 ].
Proof. vm_compute. reflexivity. Qed.

(* ------------------------------------------------------------------------- *)
(** ** Settings: load and the actions of the settings tab *)

(** The claim C6 as written fails: a persisted font size of 999 is not 24
    after load, and is outside of 10..24. *)
Lemma load_999_not_clamped :
  fontSize (loadSettings (Some (dataFontSize 999))) <> 24%Z
  /\ ~ (10 <= fontSize (loadSettings (Some (dataFontSize 999))) <= 24)%Z.
Proof. cbn. split; lia. Qed.

(** C6 (amended): [loadSettings] takes the persisted font size as it is,
    so 999 is loaded as 999 (and a blob without the key gives the default
    13); the bounds are applied by the commands: increasing never leaves a
    size above 24, decreasing never one below 10. *)
Theorem load_fontSize_verbatim :
  fontSize (loadSettings (Some (dataFontSize 999))) = 999%Z
  /\ (forall d v, d_fontSize d = Some v -> fontSize (loadSettings (Some d)) = v)
  /\ (forall d, d_fontSize d = None -> fontSize (loadSettings (Some d)) = 13%Z)
  /\ (forall s, (fontSize (increaseFontSize s) <= 24)%Z)
  /\ (forall s, (10 <= fontSize (decreaseFontSize s))%Z).
Proof.
  split; [reflexivity|].
  split; [intros d v Hv; cbn; now rewrite Hv|].
  split; [intros d Hv; cbn; now rewrite Hv|].
  split; intros s; cbn; lia.
Qed.

Lemma load_fontSize_verbatim_witness :
  d_fontSize (dataFontSize 999) = Some 999%Z
  /\ fontSize (loadSettings (Some (dataFontSize 999))) = 999%Z.
Proof.
  split; [reflexivity|].
  exact (proj1 (proj2 load_fontSize_verbatim) (dataFontSize 999) 999%Z eq_refl).
Defined.

(** C7: for every sort order [X], the default-sort action sets
    [defaultSort] to [X] and the sort order of all three sections to [X],
    whatever the sections had before (also right after a section was given
    an order of its own), and changes nothing else. *)
Theorem default_sort_resets_sections :
  forall (X : SortOrder) (s : HighlightsSidebarSettings),
    let s' := onDefaultSortChange X s in
    defaultSort s' = X
    /\ (forall t, getPer (sectionSorts s') t = X)
    /\ (forall t o u,
          getPer (sectionSorts (onDefaultSortChange X (onSectionSortPick t o s))) u = X)
    /\ fontSize s' = fontSize s
    /\ (forall t, isSectionVisible s' t = isSectionVisible s t)
    /\ sectionsCollapsed s' = sectionsCollapsed s.
Proof.
  intros X s s'. subst s'. unfold onDefaultSortChange. cbn.
  split; [reflexivity|].
  split; [intros []; reflexivity|].
  split; [intros t o []; reflexivity|].
  split; [reflexivity|].
  split; [intros []; reflexivity|reflexivity].
Qed.

(* ------------------------------------------------------------------------- *)
(** ** The sort helper *)

Section SortFacts.
Variable localeCompare : jsstring -> jsstring -> Z.

Lemma sortItems_unknown (items : list ParsedItem) (order : SortOrder) :
  knownSortOrder order = false -> sortItems localeCompare items order = items.
Proof.
  unfold knownSortOrder, sortItems. intros H.
  repeat (apply orb_false_iff in H; destruct H as [H ?]).
  now repeat match goal with E : (_ =? _)%string = false |- _ => rewrite E; clear E end.
Qed.

Lemma sortItems_line_asc (items : list ParsedItem) :
  sortItems localeCompare items "line-asc" = sortBy cmpLineAsc items.
Proof. reflexivity. Qed.
End SortFacts.

(** The claim C5 as written fails: on an order outside the four known ones
    the result differs from the [line-asc] result. *)
Lemma sort_unknown_not_line_asc :
  knownSortOrder "bogus" = false
  /\ sortItems asciiCompare twoLines "bogus"
     <> sortItems asciiCompare twoLines "line-asc".
Proof. split; [reflexivity|]. vm_compute. discriminate. Qed.

(** C5 (amended): with an order outside the four known ones, [sortItems]
    does not fail and returns the records in the order it received them (the
    [default] branch returns the copy unsorted). *)
Theorem sort_unknown_is_identity :
  forall (localeCompare : jsstring -> jsstring -> Z)
         (items : list ParsedItem) (order : SortOrder),
    knownSortOrder order = false ->
    sortItems localeCompare items order = items.
Proof. intros lc items order H. now apply sortItems_unknown. Qed.

Lemma sort_unknown_is_identity_witness :
  knownSortOrder "bogus" = false
  /\ sortItems asciiCompare twoLines "bogus" = twoLines.
Proof.
  split; [reflexivity|].
  apply (sort_unknown_is_identity asciiCompare twoLines "bogus"). reflexivity.
Defined.

(* ------------------------------------------------------------------------- *)
(** ** The search filter *)

Lemma startsWith_prefix (needle s : jsstring) :
  startsWith needle s = true <-> exists post, s = needle ++ post.
Proof.
  revert s. induction needle as [|a n IH]; intros s; cbn.
  - split; [intros _; now exists s | reflexivity].
  - destruct s as [|b s]; cbn.
    + split; [discriminate | intros [post H]; discriminate].
    + rewrite andb_true_iff, N.eqb_eq, IH. split.
      * intros [-> [post ->]]. now exists post.
      * intros [post H]. injection H as -> ->. split; [reflexivity | now exists post].
Qed.

Lemma includes_Contains (s needle : jsstring) :
  includes s needle = true <-> Contains s needle.
Proof.
  unfold Contains. induction s as [|c s IH].
  - cbn. rewrite orb_false_r, startsWith_prefix. split.
    + intros [post H]. now exists [], post.
    + intros [pre [post H]]. destruct pre; cbn in H; [now exists post | discriminate].
  - cbn [includes]. rewrite orb_true_iff, startsWith_prefix, IH. split.
    + intros [[post H] | [pre [post H]]].
      * now exists [], post.
      * exists (c :: pre), post. cbn. now rewrite H.
    + intros [pre [post H]]. destruct pre as [|d pre]; cbn in H.
      * left. now exists post.
      * right. injection H as _ H. now exists pre, post.
Qed.

Lemma Subseq_refl (A : Type) (l : list A) : Subseq l l.
Proof. induction l; constructor; assumption. Qed.

Lemma Subseq_filter (A : Type) (f : A -> bool) (l : list A) :
  Subseq (filter f l) l.
Proof.
  induction l as [|x l IH]; cbn; [constructor|].
  destruct (f x); constructor; assumption.
Qed.


(* ------------------------------------------------------------------------- *)
(** ** The sections of the sidebar *)

Section RenderFacts.
Variable localeCompare : jsstring -> jsstring -> Z.
Variable settings : HighlightsSidebarSettings.
Variable filtered : list ParsedItem.

Lemma length_zero_nil (A : Type) (l : list A) :
  (List.length l =? 0) = false <-> l <> [].
Proof. destruct l; cbn; split; congruence. Qed.

Lemma renderSection_In (sec : SectionMeta) (v : SectionView) :
  In v (renderSection localeCompare settings filtered sec) <->
  isSectionVisible settings (meta_type sec) = true
  /\ groupOf filtered (meta_type sec) <> []
  /\ v = mkSection (meta_type sec) (meta_label sec)
           (List.length (groupOf filtered (meta_type sec)))
           (strOr (getPer (sectionSorts settings) (meta_type sec))
                  (defaultSort settings))
           (getPer (sectionsCollapsed settings) (meta_type sec))
           (sortItems localeCompare (groupOf filtered (meta_type sec))
              (strOr (getPer (sectionSorts settings) (meta_type sec))
                     (defaultSort settings))).
Proof.
  unfold renderSection.
  destruct (isSectionVisible settings (meta_type sec)); cbn [negb].
  2:{ split; [intros [] | intros [H _]; discriminate]. }
  destruct (List.length (groupOf filtered (meta_type sec)) =? 0) eqn:E.
  - apply Nat.eqb_eq, length_zero_iff_nil in E. rewrite E.
    split; [intros [] | intros [_ [H _]]; now elim H].
  - apply length_zero_nil in E. cbn [In]. split.
    + intros [<- | []]. repeat split; assumption.
    + intros [_ [_ ->]]. now left.
Qed.

Lemma meta_of_type (t : ItemType) :
  exists sec, In sec sectionMeta /\ meta_type sec = t.
Proof.
  destruct t;
    [ exists (mkMeta highlight "Highlights" "highlighter")
    | exists (mkMeta comment "Comments" "message-square")
    | exists (mkMeta footnote "Footnotes" "footnote") ];
    (split; [cbn; tauto | reflexivity]).
Qed.
End RenderFacts.

(** The claim C9 as written fails: on the note [==a==] with the default
    settings and no search text there is a record after filtering and
    comments are visible, yet no Comments section is rendered. *)
Lemma render_visible_without_section :
  filterItems asciiLower (parseContent (js "==a==")) (js "") <> []
  /\ isSectionVisible DEFAULT_SETTINGS comment = true
  /\ hasSection (renderContent asciiLower asciiCompare DEFAULT_SETTINGS (js "")
                   (Some (js "==a=="))) comment = false.
Proof. vm_compute. repeat split. discriminate. Qed.

(** C9 (amended): for every note and state with at least one record left
    after filtering, the sidebar is a list of sections, and it has a section
    for a category exactly when the category is visible and has at least one
    record after filtering; so a hidden category is omitted whatever it
    matches.  Every section shown belongs to a visible category and carries
    the filtered records of its category sorted by the section's order, and
    as count the number of those records. *)
Theorem render_sections_contract :
  forall (toLowerCase : jsstring -> jsstring)
         (localeCompare : jsstring -> jsstring -> Z)
         (settings : HighlightsSidebarSettings)
         (searchQuery content : jsstring),
    let filtered := filterItems toLowerCase (parseContent content) searchQuery in
    filtered <> [] ->
    exists secs,
      renderContent toLowerCase localeCompare settings searchQuery (Some content)
        = Sections secs
      /\ (forall t, hasSection (Sections secs) t = true <->
                    isSectionVisible settings t = true /\ groupOf filtered t <> [])
      /\ (forall t, isSectionVisible settings t = false ->
                    hasSection (Sections secs) t = false)
      /\ (forall v, In v secs ->
            isSectionVisible settings (sv_type v) = true
            /\ sv_sort v = strOr (getPer (sectionSorts settings) (sv_type v))
                                 (defaultSort settings)
            /\ sv_rows v = sortItems localeCompare (groupOf filtered (sv_type v))
                             (sv_sort v)
            /\ sv_count v = List.length (groupOf filtered (sv_type v))
            /\ sv_collapsed v = getPer (sectionsCollapsed settings) (sv_type v)).
Proof.
  intros tl lc settings q content filtered Hne.
  unfold renderContent, renderSections. fold filtered.
  apply length_zero_nil in Hne. rewrite Hne. cbn [andb].
  eexists. split; [reflexivity|].
  assert (Hhas : forall t,
      hasSection (Sections (flat_map (renderSection lc settings filtered) sectionMeta)) t
        = true <->
      isSectionVisible settings t = true /\ groupOf filtered t <> []).
  { intros t. unfold hasSection. rewrite existsb_exists. split.
    - intros [v [Hin Ht]]. apply in_flat_map in Hin. destruct Hin as [sec [_ Hv]].
      apply renderSection_In in Hv. destruct Hv as [Hvis [Hg ->]]. cbn in Ht.
      destruct (meta_type sec), t; try discriminate; auto.
    - intros [Hvis Hg]. destruct (meta_of_type t) as [sec [Hsec <-]].
      eexists. split.
      + apply in_flat_map. exists sec. split; [assumption|].
        apply renderSection_In. repeat split; assumption.
      + cbn. now destruct (meta_type sec). }
  split; [exact Hhas|]. split.
  - intros t Hhid. destruct (hasSection _ t) eqn:E; [|reflexivity].
    apply Hhas in E. destruct E as [E _]. congruence.
  - intros v Hin. apply in_flat_map in Hin. destruct Hin as [sec [_ Hv]].
    apply renderSection_In in Hv. destruct Hv as [Hvis [_ ->]]. cbn.
    repeat split; assumption.
Qed.

Lemma render_sections_contract_witness :
  filterItems asciiLower (parseContent example1) (js "note") <> []
  /\ exists secs,
       renderContent asciiLower asciiCompare DEFAULT_SETTINGS (js "note")
         (Some example1) = Sections secs
       /\ hasSection (Sections secs) highlight = false.
Proof.
  split; [vm_compute; discriminate|].
  destruct (render_sections_contract asciiLower asciiCompare DEFAULT_SETTINGS
              (js "note") example1 ltac:(vm_compute; discriminate))
    as [secs [Hr [Hhas _]]].
  exists secs. split; [exact Hr|].
  destruct (hasSection (Sections secs) highlight) eqn:E; [|reflexivity].
  apply Hhas in E. destruct E as [_ E]. now elim E.
Defined.

(* ------------------------------------------------------------------------- *)
(** ** Where the records of the parser come from *)

Lemma parseLine_In (i : nat) (l : jsstring) (it : ParsedItem) :
  In it (parseLine i l) ->
  line it = i /\
  ( (type it = highlight /\
     exists m, (In m (matchAll reHighlight l) \/ In m (matchAll reMark l))
               /\ text it = group l m 1)
    \/ (type it = comment /\
        exists m, (In m (matchAll reComment l) \/ In m (matchAll reHtmlComment l))
                  /\ text it = trim (group l m 1))
    \/ (exists m, In m (matchAll reFootnote l)
                  /\ it = mkItem footnote
                            (js "[^" ++ group l m 1 ++ js "]: " ++ group l m 2)
                            i (m_index m) (m_length m)) ).
Proof.
  unfold parseLine. rewrite !in_app_iff, !in_map_iff.
  intros [H | [H | [H | [H | H]]]]; destruct H as [m [<- Hm]]; cbn;
    (split; [reflexivity|]).
  - left. eauto.
  - left. eauto.
  - right; left. eauto.
  - right; left. eauto.
  - right; right. eauto.
Qed.

Lemma parseLines_In (lines : list jsstring) :
  forall (n : nat) (it : ParsedItem),
    In it (parseLines n lines) ->
    exists k l, nth_error lines k = Some l /\ In it (parseLine (n + k) l).
Proof.
  induction lines as [|l rest IH]; intros n it Hin; cbn in Hin; [contradiction|].
  apply in_app_iff in Hin. destruct Hin as [Hin | Hin].
  - exists 0, l. rewrite Nat.add_0_r. now split.
  - destruct (IH _ _ Hin) as [k [l' [Hk Hl]]].
    exists (S k), l'. rewrite Nat.add_succ_r. now split.
Qed.

(* ------------------------------------------------------------------------- *)
(** ** Trimming *)

Lemma dropWhile_head (p : N -> bool) (s : jsstring) :
  match dropWhile p s with
  | [] => True
  | c :: _ => p c = false
  end.
Proof.
  induction s as [|c s IH]; cbn; [exact I|].
  destruct (p c) eqn:E; [exact IH | exact E].
Qed.

Lemma dropWhile_keeps_last (p : N -> bool) (s : jsstring) (c : N) :
  p c = false -> exists s', dropWhile p (s ++ [c]) = s' ++ [c].
Proof.
  intros Hc. induction s as [|d s IH]; cbn.
  - rewrite Hc. now exists [].
  - destruct (p d); [exact IH | now exists (d :: s)].
Qed.

Lemma trim_noLeadingSpace (s : jsstring) : noLeadingSpace (trim s) = true.
Proof.
  unfold trim, trimEnd, trimStart.
  pose proof (dropWhile_head isWhiteSpace s) as H.
  destruct (dropWhile isWhiteSpace s) as [|c t]; [reflexivity|].
  cbn [rev]. destruct (dropWhile_keeps_last isWhiteSpace (rev t) c H) as [s' ->].
  rewrite rev_app_distr. cbn. now rewrite H.
Qed.

Lemma trim_noTrailingSpace (s : jsstring) : noTrailingSpace (trim s) = true.
Proof.
  unfold noTrailingSpace, trim, trimEnd. rewrite rev_involutive.
  pose proof (dropWhile_head isWhiteSpace (rev (trimStart s))) as H.
  destruct (dropWhile isWhiteSpace (rev (trimStart s))); cbn; [reflexivity|].
  now rewrite H.
Qed.

(** The claim C4 as written fails: the text of the highlight of [== a ==]
    keeps the blanks around "a". *)
Lemma highlight_text_not_trimmed :
  exists it, In it (parseContent (js "== a ==")) /\ type it = highlight
             /\ noLeadingSpace (text it) = false
             /\ noTrailingSpace (text it) = false.
Proof.
  exists (mkItem highlight (js " a ") 0 0 7). vm_compute. tauto.
Qed.

(** A footnote whose remainder ends in blanks keeps them. *)
Lemma footnote_text_keeps_trailing_space :
  parseContent (js "[^1]: see  ") = [ mkItem footnote (js "[^1]: see  ") 0 0 11 ].
Proof. vm_compute. reflexivity. Qed.


(* ------------------------------------------------------------------------- *)
(** ** The order of the parser's output and the [line-asc] sort *)

Lemma parseLine_line (i : nat) (l : jsstring) (it : ParsedItem) :
  In it (parseLine i l) -> line it = i.
Proof. intros H. now apply parseLine_In in H. Qed.

Lemma parseLines_line_ge (lines : list jsstring) (n : nat) (it : ParsedItem) :
  In it (parseLines n lines) -> n <= line it.
Proof.
  intros H. apply parseLines_In in H. destruct H as [k [l [_ H]]].
  apply parseLine_line in H. lia.
Qed.

Lemma StronglySorted_app (A : Type) (R : A -> A -> Prop) (l1 l2 : list A) :
  StronglySorted R l1 -> StronglySorted R l2 ->
  (forall a b, In a l1 -> In b l2 -> R a b) ->
  StronglySorted R (l1 ++ l2).
Proof.
  intros H1 H2 H12. induction H1 as [|a l1 H1 IH Ha]; cbn; [assumption|].
  constructor.
  - apply IH. intros x y Hx Hy. apply H12; [now right | assumption].
  - apply Forall_app. split; [assumption|].
    apply Forall_forall. intros y Hy. apply H12; [now left | assumption].
Qed.

Lemma same_line_sorted (i : nat) (l : list ParsedItem) :
  (forall it, In it l -> line it = i) -> StronglySorted lineLe l.
Proof.
  induction l as [|a l IH]; intros H; constructor.
  - apply IH. intros it Hit. apply H. now right.
  - apply Forall_forall. intros b Hb. unfold lineLe.
    rewrite (H a (or_introl eq_refl)), (H b (or_intror Hb)). lia.
Qed.

Lemma parseLines_lines_sorted (lines : list jsstring) :
  forall n, StronglySorted lineLe (parseLines n lines).
Proof.
  induction lines as [|l rest IH]; intros n; cbn; [constructor|].
  apply StronglySorted_app.
  - apply same_line_sorted with (i := n). intros it. apply parseLine_line.
  - apply IH.
  - intros a b Ha Hb. apply parseLine_line in Ha. apply parseLines_line_ge in Hb.
    unfold lineLe. lia.
Qed.

Lemma lineAscLe_iff (a b : ParsedItem) :
  lineAscLe a b <-> line a < line b \/ (line a = line b /\ ch a <= ch b).
Proof.
  unfold lineAscLe, cmpLineAsc, jsOr.
  destruct (Z.eqb_spec (Z.of_nat (line a) - Z.of_nat (line b)) 0); lia.
Qed.

Lemma lineAscLe_total (a b : ParsedItem) : ~ lineAscLe a b -> lineAscLe b a.
Proof. rewrite !lineAscLe_iff. lia. Qed.

Lemma insertBy_perm (A : Type) (cmp : A -> A -> Z) (x : A) (l : list A) :
  Permutation (insertBy cmp x l) (x :: l).
Proof.
  induction l as [|y l IH]; cbn; [reflexivity|].
  destruct (cmp x y <=? 0)%Z; [reflexivity|].
  rewrite IH. apply perm_swap.
Qed.

Lemma sortBy_perm (A : Type) (cmp : A -> A -> Z) (l : list A) :
  Permutation (sortBy cmp l) l.
Proof.
  induction l as [|x l IH]; cbn; [reflexivity|].
  rewrite insertBy_perm. now constructor.
Qed.

Lemma insert_keeps_lines (x : ParsedItem) (l : list ParsedItem) :
  Forall (lineLe x) l ->
  map (@line) (insertBy cmpLineAsc x l) = line x :: map (@line) l.
Proof.
  induction 1 as [|y l Hy Hl IH]; cbn; [reflexivity|].
  destruct (Z.leb_spec (cmpLineAsc x y) 0) as [Hle | Hgt]; [reflexivity|].
  assert (Hn : ~ lineAscLe x y) by (unfold lineAscLe; lia).
  rewrite lineAscLe_iff in Hn. unfold lineLe in Hy.
  assert (Hxy : line y = line x) by lia.
  cbn. rewrite IH, Hxy. reflexivity.
Qed.

Lemma sort_keeps_lines (l : list ParsedItem) :
  StronglySorted lineLe l ->
  map (@line) (sortBy cmpLineAsc l) = map (@line) l.
Proof.
  induction 1 as [|x l Hs IH Hx]; cbn; [reflexivity|].
  rewrite insert_keeps_lines, IH; [reflexivity|].
  apply Forall_forall. intros y Hy.
  apply (Permutation_in _ (sortBy_perm cmpLineAsc l)) in Hy.
  rewrite Forall_forall in Hx. now apply Hx.
Qed.

Lemma insert_sorted (x : ParsedItem) (l : list ParsedItem) :
  Sorted lineAscLe l -> Sorted lineAscLe (insertBy cmpLineAsc x l).
Proof.
  induction 1 as [|y l Hs IH Hy]; cbn; [repeat constructor|].
  destruct (Z.leb_spec (cmpLineAsc x y) 0) as [Hle | Hgt].
  - repeat constructor; assumption.
  - assert (Hyx : lineAscLe y x) by (apply lineAscLe_total; unfold lineAscLe; lia).
    constructor; [assumption|].
    destruct l as [|z l]; cbn; [now constructor|].
    inversion Hy; subst.
    destruct (cmpLineAsc x z <=? 0)%Z; now constructor.
Qed.

Lemma sortBy_sorted (l : list ParsedItem) : Sorted lineAscLe (sortBy cmpLineAsc l).
Proof. induction l; cbn; [constructor | now apply insert_sorted]. Qed.

Lemma sortBy_fixes_sorted (l : list ParsedItem) :
  Sorted lineAscLe l -> sortBy cmpLineAsc l = l.
Proof.
  induction 1 as [|x l Hs IH Hx]; cbn; [reflexivity|].
  rewrite IH. destruct Hx as [|y l Hxy]; cbn; [reflexivity|].
  unfold lineAscLe in Hxy. apply Z.leb_le in Hxy. now rewrite Hxy.
Qed.

Lemma inColumnOrder_sorted (l : list ParsedItem) :
  StronglySorted lineLe l ->
  (inColumnOrder l = true <-> Sorted lineAscLe l).
Proof.
  induction 1 as [|a l Hs IH Ha]; [cbn; split; [constructor | reflexivity]|].
  destruct l as [|b l]; [cbn; split; [repeat constructor | reflexivity]|].
  cbn [inColumnOrder]. rewrite andb_true_iff, IH.
  assert (Hab : lineLe a b) by (inversion Ha; assumption). unfold lineLe in Hab.
  assert (Hhd : (if line a =? line b then ch a <=? ch b else true) = true
                <-> lineAscLe a b).
  { rewrite lineAscLe_iff. destruct (Nat.eqb_spec (line a) (line b)).
    - rewrite Nat.leb_le. lia.
    - split; [lia | reflexivity]. }
  rewrite Hhd. split.
  - intros [H1 H2]. constructor; [assumption | now constructor].
  - intros H. inversion H as [|? ? H2 H1]; subst. inversion H1; subst. now split.
Qed.

(** The claim C3 as written fails: on the line [<mark>x</mark> ==y==] the
    parser emits the [==] highlight (column 15) before the [<mark>] one
    (column 0), and the [line-asc] sort swaps them. *)
Lemma line_asc_changes_parser_output :
  sortItems asciiCompare (parseContent (js "<mark>x</mark> ==y==")) "line-asc"
  <> parseContent (js "<mark>x</mark> ==y==").
Proof. vm_compute. discriminate. Qed.


(* ------------------------------------------------------------------------- *)
(** ** The matcher *)

Lemma run_Mark_eq (r : list atom) (s : jsstring) (pos : nat) (marks : list nat) :
  run (Mark :: r) s pos marks = run r s pos (marks ++ [pos]).
Proof. reflexivity. Qed.

Lemma run_Star_eq (g : bool) (p : N -> bool) (r : list atom) (s : jsstring)
  (pos : nat) (marks : list nat) :
  run (Star g p :: r) s pos marks
  = star g p (fun s1 pos1 => run r s1 pos1 marks) s pos.
Proof. reflexivity. Qed.

Lemma run_One_inv (p : N -> bool) (r : list atom) (s : jsstring) (pos : nat)
  (marks : list nat) (o : outcome) :
  run (One p :: r) s pos marks = Some o ->
  exists c s', s = c :: s' /\ p c = true /\ run r s' (S pos) marks = Some o.
Proof.
  cbn [run]. destruct s as [|c s']; [discriminate|].
  destruct (p c) eqn:E; [|discriminate]. intros H. now exists c, s'.
Qed.

Lemma run_chr_inv (a : ascii) (r : list atom) (s : jsstring) (pos : nat)
  (marks : list nat) (o : outcome) :
  run (chr a :: r) s pos marks = Some o ->
  exists s', s = cu a :: s' /\ run r s' (S pos) marks = Some o.
Proof.
  intros H. apply run_One_inv in H. destruct H as [c [s' [-> [Hc H]]]].
  apply N.eqb_eq in Hc. subst c. now exists s'.
Qed.

(** A star consumed some characters that all satisfy its class, and the
    continuation succeeded on what is left. *)
Lemma star_inv (g : bool) (p : N -> bool) (k : jsstring -> nat -> option outcome)
  (s : jsstring) :
  forall (pos : nat) (o : outcome),
    star g p k s pos = Some o ->
    exists used rest,
      s = used ++ rest /\ Forall (fun c => p c = true) used
      /\ k rest (pos + List.length used) = Some o.
Proof.
  induction s as [|c s IH]; intros pos o H; cbn [star] in H.
  - exists [], []. cbn. rewrite Nat.add_0_r. auto.
  - assert (Hstop : k (c :: s) pos = Some o ->
                    exists used rest, c :: s = used ++ rest
                      /\ Forall (fun c => p c = true) used
                      /\ k rest (pos + List.length used) = Some o).
    { intros Hk. exists [], (c :: s). cbn. rewrite Nat.add_0_r. auto. }
    assert (Hmore : star g p k s (S pos) = Some o -> p c = true ->
                    exists used rest, c :: s = used ++ rest
                      /\ Forall (fun c => p c = true) used
                      /\ k rest (pos + List.length used) = Some o).
    { intros Hs Hc. destruct (IH _ _ Hs) as [used [rest [-> [Hu Hk]]]].
      exists (c :: used), rest. cbn. rewrite Nat.add_succ_r.
      repeat split; [now constructor | assumption]. }
    destruct (p c) eqn:Hc; [|now apply Hstop].
    destruct g.
    + destruct (star true p k s (S pos)) eqn:Hs.
      * injection H as ->. now apply Hmore.
      * now apply Hstop.
    + destruct (k (c :: s) pos) eqn:Hk.
      * injection H as ->. now apply Hstop.
      * now apply Hmore.
Qed.

(** A greedy star over a string of its class takes all of it when the
    continuation accepts the empty rest. *)
Lemma star_greedy_all (p : N -> bool) (k : jsstring -> nat -> option outcome)
  (s : jsstring) :
  forall (pos : nat) (o : outcome),
    Forall (fun c => p c = true) s ->
    k [] (pos + List.length s) = Some o ->
    star true p k s pos = Some o.
Proof.
  induction s as [|c s IH]; intros pos o Hall Hk; cbn [star].
  - cbn in Hk. now rewrite Nat.add_0_r in Hk.
  - inversion Hall as [|? ? Hc Hs]; subst. rewrite Hc.
    rewrite (IH (S pos) o Hs); [reflexivity|].
    cbn in Hk. now rewrite Nat.add_succ_r in Hk.
Qed.

(** What a match of the footnote pattern at the front of [s] looks like
    when [s] holds no line terminator: it covers all of [s]. *)
Lemma run_footnote_inv (s : jsstring) (pos e : nat) (ms : list nat) :
  Forall (fun c => dot c = true) s ->
  run reFootnote s pos [] = Some (e, ms) ->
  exists id ws body,
    s = js "[^" ++ id ++ js "]:" ++ ws ++ body
    /\ id <> []
    /\ Forall (fun c => notRBracket c = true) id
    /\ Forall (fun c => isWhiteSpace c = true) ws
    /\ e = pos + List.length s
    /\ ms = [pos + 2; pos + 2 + List.length id;
             pos + 4 + List.length id + List.length ws; e].
Proof.
  intros Hdot H. unfold reFootnote in H.
  apply run_chr_inv in H. destruct H as [s1 [-> H]].
  apply run_chr_inv in H. destruct H as [s2 [-> H]].
  rewrite run_Mark_eq in H.
  apply run_One_inv in H. destruct H as [c [s3 [-> [Hc H]]]].
  rewrite run_Star_eq in H.
  apply star_inv in H. destruct H as [id' [r1 [-> [Hid H]]]]. cbv beta in H.
  rewrite run_Mark_eq in H.
  apply run_chr_inv in H. destruct H as [r2 [-> H]].
  apply run_chr_inv in H. destruct H as [r3 [-> H]].
  rewrite run_Star_eq in H.
  apply star_inv in H. destruct H as [ws [body [-> [Hws H]]]]. cbv beta in H.
  rewrite run_Mark_eq, run_Star_eq in H.
  assert (Hbody : Forall (fun c => dot c = true) body).
  { rewrite Forall_forall in *. intros x Hx. apply Hdot.
    cbn. do 3 right. rewrite in_app_iff. right. cbn. do 2 right.
    rewrite in_app_iff. now right. }
  erewrite star_greedy_all in H; [| exact Hbody | reflexivity].
  injection H as <- <-.
  exists (c :: id'), ws, body. cbn [js list_ascii_of_string map app].
  repeat split.
  - discriminate.
  - now constructor.
  - assumption.
  - cbn [List.length]. rewrite !length_app. cbn [List.length]. rewrite length_app. lia.
  - cbn [List.length app]. repeat f_equal; lia.
Qed.

Lemma run_chr_eq (a : ascii) (r : list atom) (s : jsstring) (pos : nat)
  (marks : list nat) :
  run (chr a :: r) (cu a :: s) pos marks = run r s (S pos) marks.
Proof. cbn [run chr]. now rewrite N.eqb_refl. Qed.

Lemma star_None (g : bool) (p : N -> bool) (k : jsstring -> nat -> option outcome)
  (s : jsstring) (pos : nat) :
  star g p k s pos = None -> k s pos = None.
Proof.
  destruct s as [|c s]; cbn [star]; [trivial|].
  destruct (p c); [|trivial]. destruct g.
  - destruct (star true p k s (S pos)); [discriminate | trivial].
  - destruct (k (c :: s) pos); [discriminate | trivial].
Qed.

(** A star succeeds as soon as some split of the input lets the
    continuation succeed. *)
Lemma star_complete (g : bool) (p : N -> bool)
  (k : jsstring -> nat -> option outcome) (used rest : jsstring) :
  forall pos,
    Forall (fun c => p c = true) used ->
    k rest (pos + List.length used) <> None ->
    star g p k (used ++ rest) pos <> None.
Proof.
  induction used as [|c used IH]; intros pos Hall Hk; cbn [app].
  - cbn in Hk. rewrite Nat.add_0_r in Hk. intros H. now apply star_None in H.
  - inversion Hall as [|? ? Hc Hu]; subst. cbn [star]. rewrite Hc.
    assert (Hrec : star g p k (used ++ rest) (S pos) <> None).
    { apply IH; [assumption|]. cbn in Hk. now rewrite Nat.add_succ_r in Hk. }
    destruct g.
    + destruct (star true p k (used ++ rest) (S pos)); [discriminate | contradiction].
    + destruct (k (c :: used ++ rest) pos); [discriminate | assumption].
Qed.

(** The footnote pattern matches wherever a footnote definition starts. *)
Lemma run_footnote_complete (id ws body : jsstring) (pos : nat) :
  id <> [] ->
  Forall (fun c => notRBracket c = true) id ->
  Forall (fun c => isWhiteSpace c = true) ws ->
  run reFootnote (js "[^" ++ id ++ js "]:" ++ ws ++ body) pos [] <> None.
Proof.
  intros Hne Hid Hws. destruct id as [|c id]; [contradiction|].
  inversion Hid as [|? ? Hc Hid']; subst.
  change (js "[^" ++ (c :: id) ++ js "]:" ++ ws ++ body)
    with (cu "[" :: cu "^" :: c :: id ++ cu "]" :: cu ":" :: ws ++ body).
  unfold reFootnote. rewrite !run_chr_eq, run_Mark_eq.
  cbn [run]. rewrite Hc. fold run.
  change (star true notRBracket
            (fun s1 pos1 =>
               run [Mark; chr "]"; chr ":"; Star true isWhiteSpace; Mark;
                    Star true dot; Mark] s1 pos1 ([] ++ [S (S pos)]))
            (id ++ cu "]" :: cu ":" :: ws ++ body) (S (S (S pos))) <> None).
  apply star_complete; [assumption|].
  rewrite run_Mark_eq, !run_chr_eq, run_Star_eq.
  apply star_complete; [assumption|].
  rewrite run_Mark_eq, run_Star_eq. intros H. apply star_None in H. discriminate.
Qed.

Lemma app_same_length (A : Type) (a c b d : list A) :
  a ++ b = c ++ d -> List.length a = List.length c -> a = c /\ b = d.
Proof.
  revert c. induction a as [|x a IH]; intros [|y c] H Hlen; try discriminate.
  - now split.
  - cbn in H. injection H as -> H. injection Hlen as Hlen.
    destruct (IH c H Hlen) as [-> ->]. now split.
Qed.

(* ------------------------------------------------------------------------- *)
(** ** Footnote definitions *)

Lemma scan_footnote_skip_all (s : jsstring) :
  forall pos, scan reFootnote s pos (List.length s) = [].
Proof.
  induction s as [|c s IH]; intros pos; cbn [scan List.length]; [reflexivity|].
  apply IH.
Qed.

Lemma substring_middle (a b c : jsstring) :
  substring (a ++ b ++ c) (List.length a) (List.length a + List.length b) = b.
Proof.
  unfold substring. rewrite skipn_app, skipn_all, Nat.sub_diag. cbn [skipn app].
  replace (List.length a + List.length b - List.length a) with (List.length b + 0) by lia.
  rewrite firstn_app_2. cbn. apply app_nil_r.
Qed.

(** On a line without line terminators the footnote loop finds at most one
    match; a match it finds starts at the first footnote definition and runs
    to the end of the line. *)
Lemma scan_footnote (s : jsstring) :
  forall pre,
    Forall (fun c => dot c = true) s ->
    List.length (scan reFootnote s (List.length pre) 0) <= 1
    /\ forall m, In m (scan reFootnote s (List.length pre) 0) ->
         exists pre' id ws body,
           FootnoteShape (pre ++ s) pre' id ws body
           /\ m_index m = List.length pre'
           /\ m_end m = List.length (pre ++ s)
           /\ m_marks m = [List.length pre' + 2;
                           List.length pre' + 2 + List.length id;
                           List.length pre' + 4 + List.length id + List.length ws;
                           List.length (pre ++ s)]
           /\ (forall pre2 id2 ws2 body2,
                 FootnoteShape (pre ++ s) pre2 id2 ws2 body2 ->
                 List.length pre <= List.length pre2 ->
                 List.length pre' <= List.length pre2).
Proof.
  induction s as [|c s IH]; intros pre Hdot.
  - cbn. split; [lia | intros m []].
  - cbn [scan].
    destruct (run reFootnote (c :: s) (List.length pre) []) as [[e ms]|] eqn:Hrun.
    + destruct (@run_footnote_inv _ _ _ _ Hdot Hrun)
        as [id [ws [body [Hs [Hid [Hnb [Hws [He Hms]]]]]]]].
      replace (Nat.pred (e - List.length pre)) with (List.length s)
        by (cbn [List.length] in He; lia).
      rewrite scan_footnote_skip_all. split; [cbn; lia|].
      intros m [<- | []]. exists pre, id, ws, body. cbn.
      rewrite length_app. subst e ms.
      split; [unfold FootnoteShape; now rewrite Hs|]. auto.
    + specialize (IH (pre ++ [c])). rewrite length_app in IH. cbn [List.length] in IH.
      rewrite Nat.add_1_r, <- app_assoc in IH. cbn [app] in IH.
      destruct IH as [IHlen IHm]; [now inversion Hdot|].
      split; [exact IHlen|]. intros m Hm.
      destruct (IHm m Hm) as [pre' [id [ws [body [H1 [H2 [H3 [H4 H5]]]]]]]].
      exists pre', id, ws, body. repeat (split; [assumption|]).
      intros pre2 id2 ws2 body2 Hshape Hle. apply (H5 pre2 id2 ws2 body2 Hshape).
      destruct (Nat.eq_dec (List.length pre) (List.length pre2)) as [Heq | Hneq]; [|lia].
      exfalso. destruct Hshape as [Hl [Hne [Hnb Hws]]].
      destruct (app_same_length _ _ _ _ Hl Heq) as [_ Hcs].
      rewrite Hcs in Hrun. revert Hrun. now apply run_footnote_complete.
Qed.

Lemma filter_map_none (A B : Type) (f : B -> bool) (g : A -> B) (l : list A) :
  (forall x, f (g x) = false) -> filter f (map g l) = [].
Proof.
  intros H. induction l as [|x l IH]; cbn; [reflexivity|]. now rewrite H.
Qed.

Lemma filter_map_all (A B : Type) (f : B -> bool) (g : A -> B) (l : list A) :
  (forall x, f (g x) = true) -> filter f (map g l) = map g l.
Proof.
  intros H. induction l as [|x l IH]; cbn; [reflexivity|]. now rewrite H, IH.
Qed.

Lemma parseLine_footnotes (i : nat) (l : jsstring) :
  filter isFootnote (parseLine i l)
  = map (fun m => mkItem footnote
                    (js "[^" ++ group l m 1 ++ js "]: " ++ group l m 2)
                    i (m_index m) (m_length m))
        (matchAll reFootnote l).
Proof.
  unfold parseLine. rewrite !filter_app.
  rewrite !filter_map_none by reflexivity.
  rewrite filter_map_all by reflexivity. reflexivity.
Qed.

(** One line: at most one Footnote record, spanning to the end of the line,
    its text being the definition with one blank after the colon in place
    of the white space there. *)
Lemma footnote_on_clean_line (i : nat) (l : jsstring) :
  Forall (fun c => dot c = true) l ->
  List.length (filter isFootnote (parseLine i l)) <= 1
  /\ forall it, In it (parseLine i l) -> type it = footnote ->
       exists pre id ws body,
         FootnoteShape l pre id ws body
         /\ ch it = List.length pre
         /\ matchLength it = List.length l - ch it
         /\ text it = js "[^" ++ id ++ js "]: " ++ body
         /\ NoFootnoteBefore l (ch it).
Proof.
  intros Hdot. destruct (@scan_footnote l [] Hdot) as [Hlen Hm].
  cbn [List.length app] in Hlen, Hm. split.
  - rewrite parseLine_footnotes, length_map. exact Hlen.
  - intros it Hin Ht. apply parseLine_In in Hin. destruct Hin as [_ [H | [H | H]]].
    + destruct H as [H _]. congruence.
    + destruct H as [H _]. congruence.
    + destruct H as [m [Hin ->]]. destruct (Hm m Hin)
        as [pre [id [ws [body [Hshape [Hidx [Hend [Hmarks Hfirst]]]]]]]].
      exists pre, id, ws, body. cbn. unfold m_length. rewrite Hidx, Hend.
      split; [exact Hshape|]. split; [reflexivity|]. split; [reflexivity|].
      split; [|intros pre2 id2 ws2 body2 H2; apply (Hfirst _ _ _ _ H2); cbn; lia].
      unfold group. rewrite Hmarks. cbn [nth Nat.mul Nat.add Nat.sub].
      destruct Hshape as [Hl _].
      assert (H1 : substring l (List.length pre + 2) (List.length pre + 2 + List.length id) = id).
      { rewrite Hl at 1. rewrite (app_assoc pre (js "[^")).
        replace (List.length pre + 2) with (List.length (pre ++ js "[^"))
          by (rewrite length_app; reflexivity).
        apply substring_middle. }
      assert (H2 : substring l (List.length pre + 4 + List.length id + List.length ws)
                     (List.length l) = body).
      { unfold substring. rewrite Hl at 1 2.
        replace (pre ++ js "[^" ++ id ++ js "]:" ++ ws ++ body)
          with ((pre ++ js "[^" ++ id ++ js "]:" ++ ws) ++ body)
          by (now rewrite <- !app_assoc).
        replace (List.length pre + 4 + List.length id + List.length ws)
          with (List.length (pre ++ js "[^" ++ id ++ js "]:" ++ ws))
          by (rewrite !length_app; cbn; lia).
        rewrite skipn_app, skipn_all, Nat.sub_diag. cbn [skipn app].
        apply firstn_all2. rewrite length_app. lia. }
      now rewrite H1, H2.
Qed.

Lemma splitOn_chars (sep : N) (s : jsstring) :
  forall l, In l (splitOn sep s) -> forall c, In c l -> In c s /\ c <> sep.
Proof.
  induction s as [|d s IH]; intros l Hl c Hc; cbn [splitOn] in Hl.
  - destruct Hl as [<- | []]. destruct Hc.
  - destruct (N.eqb_spec d sep) as [-> | Hd].
    + destruct Hl as [<- | Hl]; [destruct Hc|].
      destruct (IH l Hl c Hc). split; [now right | assumption].
    + destruct (splitOn sep s) as [|l0 ls].
      * destruct Hl as [<- | []]. destruct Hc as [<- | []]. split; [now left | assumption].
      * destruct Hl as [<- | Hl].
        -- destruct Hc as [<- | Hc]; [split; [now left | assumption]|].
           destruct (IH l0 (or_introl eq_refl) c Hc). split; [now right | assumption].
        -- destruct (IH l (or_intror Hl) c Hc). split; [now right | assumption].
Qed.

Lemma lines_without_terminators (content l : jsstring) :
  onlyLfTerminators content = true ->
  In l (splitOn 10 content) ->
  Forall (fun c => isLineTerminator c = false) l.
Proof.
  intros Hclean Hl. apply Forall_forall. intros c Hc.
  destruct (splitOn_chars _ _ _ Hl _ Hc) as [Hin Hne].
  unfold onlyLfTerminators in Hclean. rewrite forallb_forall in Hclean.
  specialize (Hclean c Hin). unfold isLineTerminator.
  apply N.eqb_neq in Hne. rewrite Hne. cbn [orb].
  now apply negb_true_iff in Hclean.
Qed.

Lemma footnotesOn_line (i n : nat) (l : jsstring) :
  footnotesOn i (parseLine n l)
  = if n =? i then filter isFootnote (parseLine n l) else [].
Proof.
  unfold footnotesOn.
  assert (H : forall items, (forall it, In it items -> line it = n) ->
            filter (fun it => isFootnote it && (line it =? i)) items
            = if n =? i then filter isFootnote items else []).
  { induction items as [|a items IH]; intros Hall; cbn [filter].
    - now destruct (n =? i).
    - rewrite IH by (intros it Hit; apply Hall; now right).
      rewrite (Hall a (or_introl eq_refl)).
      destruct (n =? i); [now rewrite andb_true_r | now rewrite andb_false_r]. }
  apply H. intros it. apply parseLine_line.
Qed.

Lemma footnotesOn_later (lines : list jsstring) (i n : nat) :
  i < n -> footnotesOn i (parseLines n lines) = [].
Proof.
  intros Hlt. unfold footnotesOn.
  assert (H : forall items, (forall it, In it items -> n <= line it) ->
            filter (fun it => isFootnote it && (line it =? i)) items = []).
  { induction items as [|b items IH]; intros Hall; cbn [filter]; [reflexivity|].
    assert (Hb : n <= line b) by (apply Hall; now left).
    destruct (Nat.eqb_spec (line b) i); [lia|]. rewrite andb_false_r.
    apply IH. intros it Hit. apply Hall. now right. }
  apply H. intros it. apply parseLines_line_ge.
Qed.

Lemma footnotesOn_parseLines (lines : list jsstring) :
  forall i n,
    (forall l, n <= i -> nth_error lines (i - n) = Some l ->
               Forall (fun c => dot c = true) l) ->
    List.length (footnotesOn i (parseLines n lines)) <= 1.
Proof.
  induction lines as [|l rest IH]; intros i n Hclean; cbn [parseLines]; [cbn; lia|].
  unfold footnotesOn at 1. rewrite filter_app. fold (footnotesOn i (parseLine n l)).
  fold (footnotesOn i (parseLines (S n) rest)).
  rewrite length_app, footnotesOn_line.
  destruct (Nat.eqb_spec n i) as [-> | Hne].
  - rewrite footnotesOn_later by lia. cbn [List.length].
    assert (Hl : Forall (fun c => dot c = true) l).
    { apply Hclean; [lia|]. now rewrite Nat.sub_diag. }
    pose proof (proj1 (footnote_on_clean_line i Hl)). lia.
  - cbn [List.length]. apply IH. intros l' Hle Hnth. apply Hclean; [lia|].
    replace (i - n) with (S (i - S n)) by lia. exact Hnth.
Qed.

(** The claim C10 as written fails: a line of a document is what lies
    between two LF, and it may hold a LINE SEPARATOR (or PS, CR), which the
    dot of the pattern does not cross.  The one-line text [[^a]: x] LS
    [[^b]: y] gives two Footnote records on line 0, and the span of the
    first one stops at the LS, not at the end of the line; the same happens
    with a CR. *)
Lemma two_footnotes_on_one_line :
  splitOn 10 lsLine = [lsLine]
  /\ parseContent lsLine
     = [ mkItem footnote (js "[^a]: x") 0 0 7;
         mkItem footnote (js "[^b]: y") 0 8 7 ]
  /\ List.length (footnotesOn 0 (parseContent lsLine)) = 2
  /\ 7 <> List.length lsLine - 0
  /\ parseContent crLine = parseContent lsLine.
Proof. vm_compute. repeat split; discriminate. Qed.

(** C10 (amended): for every line of a document that holds no line
    terminator (no CR, LS or PS; the lines are what the split at LF returns),
    the parser emits at most one Footnote record; such a record's match
    starts at the first footnote definition of the line and runs to the end
    of the line, so its [matchLength] is the length of the line minus its
    column, and its text is the definition with everything that follows the
    white space after the colon, later definitions on the line included. *)
Theorem one_footnote_per_line :
  forall (content : jsstring) (i : nat) (l : jsstring),
    nth_error (splitOn 10 content) i = Some l ->
    Forall (fun c => isLineTerminator c = false) l ->
    List.length (footnotesOn i (parseContent content)) <= 1
    /\ (forall it, In it (parseContent content) ->
          line it = i -> type it = footnote ->
          exists pre id ws body,
            FootnoteShape l pre id ws body
            /\ ch it = List.length pre
            /\ matchLength it = List.length l - ch it
            /\ text it = js "[^" ++ id ++ js "]: " ++ body
            /\ NoFootnoteBefore l (ch it)).
Proof.
  intros content i l Hnth Hclean. unfold parseContent.
  assert (Hdot : Forall (fun c => dot c = true) l).
  { revert Hclean. apply Forall_impl. intros c Hc. unfold dot. now rewrite Hc. }
  split.
  - apply footnotesOn_parseLines. intros l' _ Hl'.
    rewrite Nat.sub_0_r in Hl'. congruence.
  - intros it Hin Hi Ht. destruct (parseLines_In _ _ _ Hin) as [k [l' [Hk Hl']]].
    cbn [Nat.add] in Hl'. pose proof (parseLine_line _ _ _ Hl') as Hline.
    rewrite <- Hline, Hi in Hk, Hl'.
    assert (l' = l) by congruence. subst l'.
    exact (proj2 (footnote_on_clean_line i Hdot) it Hl' Ht).
Qed.

Lemma one_footnote_per_line_witness :
  nth_error (splitOn 10 twoDefinitions) 1 = Some (js "x [^1]: a [^2]: b")
  /\ Forall (fun c => isLineTerminator c = false) (js "x [^1]: a [^2]: b")
  /\ List.length (footnotesOn 1 (parseContent twoDefinitions)) <= 1
  /\ parseContent twoDefinitions
     = [ mkItem highlight (js "h") 0 0 5;
         mkItem footnote (js "[^1]: a [^2]: b") 1 2 15 ].
Proof.
  assert (Hclean : Forall (fun c => isLineTerminator c = false) (js "x [^1]: a [^2]: b")).
  { apply (lines_without_terminators twoDefinitions); [reflexivity|].
    vm_compute. tauto. }
  split; [reflexivity|]. split; [exact Hclean|]. split.
  - exact (proj1 (one_footnote_per_line twoDefinitions 1 eq_refl Hclean)).
  - vm_compute. reflexivity.
Defined.


(* ========================================================================= *)
(** * Further properties of the parser *)

Lemma scan_In (its : list atom) (s : jsstring) :
  forall pos skip m,
    In m (scan its s pos skip) ->
    exists k, skip <= k <= List.length s
              /\ m_index m = pos + k
              /\ run its (skipn k s) (pos + k) [] = Some (m_end m, m_marks m).
Proof.
  induction s as [|c s IH]; intros pos skip m Hin; cbn [scan] in Hin.
  - destruct skip; [|destruct Hin].
    destruct (run its [] pos []) as [[e ms]|] eqn:Hrun; [|destruct Hin].
    destruct Hin as [<- | []]. exists 0. cbn. rewrite Nat.add_0_r. auto.
  - assert (Hstep : forall sk, In m (scan its s (S pos) sk) ->
              exists k, S sk <= k <= List.length (c :: s)
                        /\ m_index m = pos + k
                        /\ run its (skipn k (c :: s)) (pos + k) []
                           = Some (m_end m, m_marks m)).
    { intros sk H. destruct (IH _ _ _ H) as [k [Hk [Hi Hr]]].
      exists (S k). cbn [skipn List.length]. rewrite Nat.add_succ_r.
      repeat split; try lia; assumption. }
    destruct skip as [|sk].
    + destruct (run its (c :: s) pos []) as [[e ms]|] eqn:Hrun.
      * destruct Hin as [<- | Hin].
        -- exists 0. cbn. rewrite Nat.add_0_r. repeat split; try lia; assumption.
        -- destruct (Hstep _ Hin) as [k [Hk H]]. exists k. split; [lia | exact H].
      * destruct (Hstep _ Hin) as [k [Hk H]]. exists k. split; [lia | exact H].
    + exact (Hstep _ Hin).
Qed.

Lemma run_bounds (its : list atom) :
  forall s pos marks e ms,
    run its s pos marks = Some (e, ms) ->
    pos + countOne its <= e <= pos + List.length s.
Proof.
  induction its as [|a r IH]; intros s pos marks e ms H.
  - cbn in H. injection H as <- _. cbn. lia.
  - destruct a as [p | g p |].
    + apply run_One_inv in H. destruct H as [c [s' [-> [_ H]]]].
      apply IH in H. cbn. lia.
    + rewrite run_Star_eq in H. apply star_inv in H.
      destruct H as [used [rest [-> [_ H]]]]. apply IH in H.
      rewrite length_app. cbn [countOne]. lia.
    + rewrite run_Mark_eq in H. apply IH in H. cbn [countOne]. lia.
Qed.

Lemma length_skipn_le (A : Type) (k : nat) (l : list A) :
  k <= List.length l -> k + List.length (skipn k l) = List.length l.
Proof. intros H. rewrite length_skipn. lia. Qed.

(** A match of [matchAll] lies inside the line and is at least as long as
    the pattern has one-character atoms. *)
Lemma matchAll_span (its : list atom) (l : jsstring) (m : rmatch) :
  In m (matchAll its l) ->
  m_index m + countOne its <= m_end m <= List.length l.
Proof.
  intros H. apply scan_In in H. destruct H as [k [Hk [Hi Hr]]].
  apply run_bounds in Hr. pose proof (length_skipn_le l (proj2 Hk)).
  cbn in Hi. rewrite Hi. cbn in Hr. lia.
Qed.

Lemma parseLine_span (i : nat) (l : jsstring) (it : ParsedItem) :
  In it (parseLine i l) ->
  4 <= matchLength it /\ ch it + matchLength it <= List.length l.
Proof.
  unfold parseLine. rewrite !in_app_iff, !in_map_iff.
  intros [H | [H | [H | [H | H]]]]; destruct H as [m [<- Hm]];
    apply matchAll_span in Hm; cbn in Hm |- *; unfold m_length; lia.
Qed.

Lemma parseContent_In (content : jsstring) (it : ParsedItem) :
  In it (parseContent content) ->
  exists l, nth_error (splitOn 10 content) (line it) = Some l
            /\ In it (parseLine (line it) l).
Proof.
  intros H. apply parseLines_In in H. destruct H as [k [l [Hk Hl]]].
  cbn [Nat.add] in Hl. pose proof (parseLine_line _ _ _ Hl) as E.
  exists l. rewrite E. now split.
Qed.

(** X1: every record of the parser points into the document: its line is
    one of the lines, its span of at least four characters starts at its
    column and ends inside that line. *)
Theorem record_span_inside_line :
  forall (content : jsstring) (it : ParsedItem),
    In it (parseContent content) ->
    exists l,
      nth_error (splitOn 10 content) (line it) = Some l
      /\ 4 <= matchLength it
      /\ ch it + matchLength it <= List.length l.
Proof.
  intros content it H. apply parseContent_In in H. destruct H as [l [Hl Hin]].
  exists l. split; [exact Hl|]. now apply parseLine_span with (line it).
Qed.

Lemma record_span_inside_line_witness :
  In (mkItem highlight (js "beta") 0 14 17) (parseContent example1)
  /\ exists l, nth_error (splitOn 10 example1) 0 = Some l
               /\ 14 + 17 <= List.length l.
Proof.
  split; [vm_compute; tauto|].
  destruct (record_span_inside_line example1 (mkItem highlight (js "beta") 0 14 17)
              ltac:(vm_compute; tauto)) as [l [H1 [_ H2]]].
  exists l. split; assumption.
Defined.

(* ------------------------------------------------------------------------- *)
(** ** Text without delimiters *)

Lemma scan_first_atom_never (p : N -> bool) (r : list atom) (s : jsstring) :
  Forall (fun c => p c = false) s ->
  forall pos skip, scan (One p :: r) s pos skip = [].
Proof.
  induction 1 as [|c s Hc Hs IH]; intros pos skip; cbn [scan run].
  - now destruct skip.
  - destruct skip; [|apply IH]. rewrite Hc. apply IH.
Qed.

Lemma scan_chr_never (a : ascii) (r : list atom) (s : jsstring) :
  Forall (fun c => (c =? cu a)%N = false) s ->
  forall pos skip, scan (chr a :: r) s pos skip = [].
Proof. intros H. unfold chr. now apply scan_first_atom_never. Qed.

Lemma plain_line_no_records (i : nat) (l : jsstring) :
  plainText l = true -> parseLine i l = [].
Proof.
  intros H. unfold plainText in H. rewrite forallb_forall in H.
  assert (Hno : forall a, In a ["="; "<"; "%"; "["]%char ->
                 Forall (fun c => (c =? cu a)%N = false) l).
  { intros a Ha. apply Forall_forall. intros c Hc. specialize (H c Hc).
    apply negb_true_iff in H. repeat (apply orb_false_iff in H; destruct H as [H ?]).
    cbn in Ha. destruct Ha as [<- | [<- | [<- | [<- | []]]]]; assumption. }
  unfold parseLine, matchAll, reHighlight, reMark, reComment, reHtmlComment,
    reFootnote.
  rewrite !scan_chr_never; [reflexivity | | | | |]; apply Hno; cbn; tauto.
Qed.

Lemma parseLines_nil (lines : list jsstring) :
  (forall l, In l lines -> plainText l = true) ->
  forall n, parseLines n lines = [].
Proof.
  induction lines as [|l rest IH]; intros H n; cbn [parseLines]; [reflexivity|].
  rewrite plain_line_no_records by (apply H; now left).
  apply IH. intros l' Hl'. apply H. now right.
Qed.

(** X2: a document without any of the characters [=], [<], [%] and [[]
    gives no record at all. *)
Theorem plain_text_no_records :
  forall (content : jsstring),
    plainText content = true -> parseContent content = [].
Proof.
  intros content H. unfold parseContent. apply parseLines_nil.
  intros l Hl. unfold plainText in *. rewrite forallb_forall in *.
  intros c Hc. apply H. now apply (splitOn_chars _ _ _ Hl).
Qed.

Lemma plain_text_no_records_witness :
  plainText (js ("just some words" ++ nl ++ "and a second line")) = true
  /\ parseContent (js ("just some words" ++ nl ++ "and a second line")) = [].
Proof.
  split; [reflexivity|]. now apply plain_text_no_records.
Defined.

(* ------------------------------------------------------------------------- *)
(** ** Parsing line by line *)

Lemma splitOn_nonempty (sep : N) (s : jsstring) : splitOn sep s <> [].
Proof.
  destruct s as [|c s]; cbn; [discriminate|].
  destruct (c =? sep)%N; [discriminate|]. destruct (splitOn sep s); discriminate.
Qed.

Lemma splitOn_app (sep : N) (a b : jsstring) :
  splitOn sep (a ++ sep :: b) = splitOn sep a ++ splitOn sep b.
Proof.
  induction a as [|c a IH]; cbn [app splitOn].
  - now rewrite N.eqb_refl.
  - destruct (c =? sep)%N; [now rewrite IH|].
    rewrite IH. pose proof (splitOn_nonempty sep a).
    destruct (splitOn sep a); [contradiction | reflexivity].
Qed.

Lemma parseLine_shift (n : nat) (l : jsstring) :
  parseLine n l = map (shiftLine n) (parseLine 0 l).
Proof.
  unfold parseLine. rewrite !map_app, !map_map. unfold shiftLine. cbn.
  rewrite Nat.add_0_r. reflexivity.
Qed.

Lemma parseLines_shift (lines : list jsstring) :
  forall n k, parseLines (n + k) lines = map (shiftLine n) (parseLines k lines).
Proof.
  induction lines as [|l rest IH]; intros n k; cbn [parseLines map]; [reflexivity|].
  rewrite map_app, <- IH, <- Nat.add_succ_r. f_equal.
  rewrite (parseLine_shift (n + k)), (parseLine_shift k), map_map.
  apply map_ext. intros it. unfold shiftLine. cbn. f_equal. lia.
Qed.

Lemma parseLines_app (A B : list jsstring) :
  forall n, parseLines n (A ++ B) = parseLines n A ++ parseLines (List.length A + n) B.
Proof.
  induction A as [|l A IH]; intros n; cbn [app parseLines List.length]; [reflexivity|].
  rewrite IH, <- app_assoc. do 3 f_equal. lia.
Qed.

(** X3: parsing is line by line: the records of two texts joined by a line
    feed are the records of the first text followed by the records of the
    second one, moved down by the number of lines of the first. *)
Theorem parse_joined_documents :
  forall (a b : jsstring),
    parseContent (a ++ 10%N :: b)
    = parseContent a
      ++ map (shiftLine (List.length (splitOn 10 a))) (parseContent b).
Proof.
  intros a b. unfold parseContent.
  rewrite splitOn_app, parseLines_app, <- parseLines_shift. reflexivity.
Qed.

(* ------------------------------------------------------------------------- *)
(** ** The delimiter patterns *)

Lemma reHighlight_delimited :
  reHighlight = delimited [isChr "="; isChr "="] [isChr "="; isChr "="].
Proof. reflexivity. Qed.

Lemma reMark_delimited : reMark = delimited markOpen markClose.
Proof. reflexivity. Qed.

Lemma reComment_delimited :
  reComment = delimited [isChr "%"; isChr "%"] [isChr "%"; isChr "%"].
Proof. reflexivity. Qed.

Lemma reHtmlComment_delimited :
  reHtmlComment = delimited [isChr "<"; isChr "!"; isChr "-"; isChr "-"]
                            [isChr "-"; isChr "-"; isChr ">"].
Proof. reflexivity. Qed.

Lemma sat_length (ps : list (N -> bool)) (cs : jsstring) :
  sat ps cs -> List.length cs = List.length ps.
Proof. intros H. symmetry. exact (Forall2_length H). Qed.

Lemma run_ones_inv (ps : list (N -> bool)) (r : list atom) :
  forall s pos marks o,
    run (map One ps ++ r) s pos marks = Some o ->
    exists cs rest, s = cs ++ rest /\ sat ps cs
                    /\ run r rest (pos + List.length cs) marks = Some o.
Proof.
  induction ps as [|p ps IH]; intros s pos marks o H; cbn [map app] in H.
  - exists [], s. cbn. rewrite Nat.add_0_r. repeat split; [constructor | assumption].
  - apply run_One_inv in H. destruct H as [c [s' [-> [Hc H]]]].
    destruct (IH _ _ _ _ H) as [cs [rest [-> [Hs Hr]]]].
    exists (c :: cs), rest. cbn. rewrite Nat.add_succ_r.
    repeat split; [now constructor | assumption].
Qed.

Lemma run_ones_complete (ps : list (N -> bool)) (r : list atom) (cs : jsstring) :
  sat ps cs ->
  forall rest pos marks,
    run (map One ps ++ r) (cs ++ rest) pos marks
    = run r rest (pos + List.length cs) marks.
Proof.
  induction 1 as [|p c ps cs Hc Hs IH]; intros rest pos marks; cbn [map app].
  - cbn. now rewrite Nat.add_0_r.
  - cbn [run]. rewrite Hc, IH. cbn. now rewrite Nat.add_succ_r.
Qed.

(** A lazy star stops at the first place where the continuation succeeds. *)
Lemma star_lazy_inv (p : N -> bool) (k : jsstring -> nat -> option outcome)
  (s : jsstring) :
  forall pos o,
    star false p k s pos = Some o ->
    exists used rest,
      s = used ++ rest
      /\ Forall (fun c => p c = true) used
      /\ k rest (pos + List.length used) = Some o
      /\ (forall a b, used = a ++ b -> b <> [] ->
            k (b ++ rest) (pos + List.length a) = None).
Proof.
  induction s as [|c s IH]; intros pos o H; cbn [star] in H.
  - exists [], []. cbn. rewrite Nat.add_0_r. repeat split; auto.
    intros a b E Hb. symmetry in E. apply app_eq_nil in E. now destruct E.
  - assert (Hstop : k (c :: s) pos = Some o ->
              exists used rest, c :: s = used ++ rest
                /\ Forall (fun c => p c = true) used
                /\ k rest (pos + List.length used) = Some o
                /\ (forall a b, used = a ++ b -> b <> [] ->
                      k (b ++ rest) (pos + List.length a) = None)).
    { intros Hk. exists [], (c :: s). cbn. rewrite Nat.add_0_r. repeat split; auto.
      intros a b E Hb. symmetry in E. apply app_eq_nil in E. now destruct E. }
    destruct (p c) eqn:Hc; [|now apply Hstop].
    destruct (k (c :: s) pos) eqn:Hk; [injection H as ->; now apply Hstop|].
    destruct (IH _ _ H) as [used [rest [-> [Hu [Hr Hmin]]]]].
    exists (c :: used), rest. cbn [app List.length]. rewrite Nat.add_succ_r.
    repeat split; [now constructor | assumption |].
    intros a b E Hb. destruct a as [|x a]; cbn [app List.length] in *.
    + subst b. cbn [app]. now rewrite Nat.add_0_r.
    + injection E as -> E. rewrite Nat.add_succ_r. now apply Hmin.
Qed.

Lemma dot_not_terminator (inner : jsstring) :
  Forall (fun c => dot c = true) inner ->
  Forall (fun x => isLineTerminator x = false) inner.
Proof.
  apply Forall_impl. intros c H. unfold dot in H. now apply negb_true_iff in H.
Qed.

(** What a match of a delimiter pattern at the front of [s] looks like. *)
Lemma run_delimited_inv (opens closes : list (N -> bool)) (s : jsstring)
  (pos e : nat) (ms : list nat) :
  run (delimited opens closes) s pos [] = Some (e, ms) ->
  exists o inner c rest,
    s = o ++ inner ++ c ++ rest
    /\ sat opens o /\ sat closes c
    /\ Forall (fun x => isLineTerminator x = false) inner
    /\ e = pos + List.length o + List.length inner + List.length c
    /\ ms = [pos + List.length o; pos + List.length o + List.length inner]
    /\ (forall a b, inner = a ++ b -> b <> [] ->
          forall c' t, b ++ c ++ rest = c' ++ t -> ~ sat closes c').
Proof.
  unfold delimited. intros H.
  apply run_ones_inv in H. destruct H as [o [s1 [-> [Ho H]]]].
  cbn [app] in H. rewrite run_Mark_eq, run_Star_eq in H.
  apply star_lazy_inv in H. destruct H as [inner [s2 [-> [Hin [H Hmin]]]]].
  rewrite run_Mark_eq in H.
  rewrite <- (app_nil_r (map One closes)) in H.
  apply run_ones_inv in H. destruct H as [c [rest [-> [Hc H]]]].
  cbn in H. injection H as <- <-.
  exists o, inner, c, rest.
  split; [reflexivity|]. split; [assumption|]. split; [assumption|].
  split; [now apply dot_not_terminator|].
  rewrite (sat_length Hc). split; [lia|]. split; [cbn; repeat f_equal; lia|].
  intros a b E Hb c' t E' Hc'. specialize (Hmin a b E Hb). cbv beta in Hmin.
  rewrite run_Mark_eq, E' in Hmin.
  rewrite <- (app_nil_r (map One closes)) in Hmin.
  rewrite (run_ones_complete _ Hc') in Hmin. discriminate.
Qed.

(** The matches of a delimiter pattern in a line. *)
Lemma matchAll_delimited (opens closes : list (N -> bool)) (l : jsstring)
  (m : rmatch) :
  In m (matchAll (delimited opens closes) l) ->
  exists o c,
    sat opens o /\ sat closes c
    /\ DelimitedAt closes l (m_index m) o (group l m 1) c
    /\ m_length m = List.length o + List.length (group l m 1) + List.length c.
Proof.
  intros H. apply scan_In in H. destruct H as [k [Hk [Hi Hr]]]. cbn in Hi.
  apply run_delimited_inv in Hr.
  destruct Hr as [o [inner [c [rest [Hs [Ho [Hc [Hlt [He [Hms Hmin]]]]]]]]]].
  assert (Hl : l = firstn k l ++ o ++ inner ++ c ++ rest)
    by (rewrite <- Hs; symmetry; apply firstn_skipn).
  assert (Hpre : List.length (firstn k l) = k) by (apply firstn_length_le; lia).
  assert (Hg : group l m 1 = inner).
  { unfold group. rewrite Hms. cbn [nth Nat.mul Nat.add Nat.sub].
    rewrite Hl at 1. rewrite (app_assoc (firstn k l) o).
    replace (k + List.length o) with (List.length (firstn k l ++ o))
      by (rewrite length_app; lia).
    apply substring_middle. }
  exists o, c. rewrite Hg. repeat split; try assumption.
  - exists (firstn k l), rest. repeat split; try assumption. lia.
  - unfold m_length. lia.
Qed.

Lemma parseLine_cases (i : nat) (l : jsstring) (it : ParsedItem) :
  In it (parseLine i l) ->
  (exists m, (In m (matchAll reHighlight l) \/ In m (matchAll reMark l))
             /\ it = mkItem highlight (group l m 1) i (m_index m) (m_length m)
             /\ (In m (matchAll reHighlight l) \/ In m (matchAll reMark l)))
  \/ (exists m, (In m (matchAll reComment l) \/ In m (matchAll reHtmlComment l))
                /\ it = mkItem comment (trim (group l m 1)) i (m_index m) (m_length m))
  \/ (exists m, In m (matchAll reFootnote l)
                /\ it = mkItem footnote
                          (js "[^" ++ group l m 1 ++ js "]: " ++ group l m 2)
                          i (m_index m) (m_length m)).
Proof.
  unfold parseLine. rewrite !in_app_iff, !in_map_iff.
  intros [H | [H | [H | [H | H]]]]; destruct H as [m [<- Hm]].
  - left. exists m. auto.
  - left. exists m. auto.
  - right; left. exists m. auto.
  - right; left. exists m. auto.
  - right; right. exists m. auto.
Qed.

Lemma isChr_eq (a : ascii) (c : N) : isChr a c = true <-> c = cu a.
Proof. unfold isChr. apply N.eqb_eq. Qed.

Lemma sat_literal (lit : list ascii) (cs : jsstring) :
  sat (map isChr lit) cs <-> cs = map cu lit.
Proof.
  unfold sat. revert cs. induction lit as [|a lit IH]; intros cs; cbn [map].
  - split; [intros H; now inversion H | intros ->; constructor].
  - split.
    + intros H. inversion H as [|? c ? cs' Hc Hs]; subst.
      apply isChr_eq in Hc. apply IH in Hs. congruence.
    + intros ->. constructor; [now apply isChr_eq | now apply IH].
Qed.

Lemma isChr_lower (a : ascii) :
  (cu a < 65 \/ 122 < cu a \/ 90 < cu a < 97)%N ->
  forall c, isChr a c = true <-> asciiLowerChar c = cu a.
Proof.
  intros Ha c. rewrite isChr_eq. unfold asciiLowerChar.
  destruct (N.leb_spec 65 c), (N.leb_spec c 90); cbn [andb]; lia.
Qed.

Lemma isChrI_lower (a : ascii) :
  (97 <= cu a <= 122)%N ->
  forall c, isChrI a c = true <-> asciiLowerChar c = cu a.
Proof.
  intros Ha c. unfold isChrI, asciiLowerChar.
  rewrite orb_true_iff, !N.eqb_eq.
  destruct (N.leb_spec 65 c), (N.leb_spec c 90); cbn [andb]; lia.
Qed.

Lemma sat_lower (ps : list (N -> bool)) (tag : jsstring) :
  Forall2 (fun p t => forall c, p c = true <-> asciiLowerChar c = t) ps tag ->
  forall cs, sat ps cs <-> asciiLower cs = tag.
Proof.
  unfold sat, asciiLower. induction 1 as [|p t ps tag Hp Hps IH]; intros cs.
  - split; [intros H; now inversion H | destruct cs; [constructor | discriminate]].
  - split.
    + intros H. inversion H as [|? c ? cs' Hc Hs]; subst. cbn [map].
      apply Hp in Hc. apply IH in Hs. congruence.
    + destruct cs as [|c cs]; cbn [map]; [discriminate|]. intros E.
      injection E as Hc Hs. constructor; [now apply Hp | now apply IH].
Qed.

Lemma sat_markOpen (cs : jsstring) : sat markOpen cs <-> asciiLower cs = js "<mark>".
Proof.
  apply sat_lower. unfold markOpen.
  repeat constructor;
    first [ apply isChrI_lower; unfold cu; simpl N_of_ascii; lia
          | apply isChr_lower; unfold cu; simpl N_of_ascii; lia ].
Qed.

Lemma sat_markClose (cs : jsstring) : sat markClose cs <-> asciiLower cs = js "</mark>".
Proof.
  apply sat_lower. unfold markClose.
  repeat constructor;
    first [ apply isChrI_lower; unfold cu; simpl N_of_ascii; lia
          | apply isChr_lower; unfold cu; simpl N_of_ascii; lia ].
Qed.

Lemma DelimitedAt_SpanAt (closes : list (N -> bool)) (l : jsstring) (col : nat)
  (o inner c : jsstring) :
  DelimitedAt closes l col o inner c ->
  SpanAt l col o inner c /\ noTerminator inner.
Proof.
  intros [pre [post [Hl [Hc [Hlt _]]]]]. split; [now exists pre, post | exact Hlt].
Qed.

Lemma DelimitedAt_no_close (closes : list (N -> bool)) (l : jsstring) (col : nat)
  (o inner c cl : jsstring) :
  DelimitedAt closes l col o inner c ->
  closes <> [] -> sat closes cl -> ~ Contains inner cl.
Proof.
  intros [pre [post [_ [_ [_ Hmin]]]]] Hne Hcl [a [b E]].
  apply (Hmin a (cl ++ b) E) with (c' := cl) (t := b ++ c ++ post).
  - intros H. apply app_eq_nil in H. destruct H as [-> _].
    inversion Hcl; subst. contradiction.
  - now rewrite <- app_assoc.
  - exact Hcl.
Qed.

Lemma asciiLower_Contains (s cl : jsstring) :
  Contains (asciiLower s) cl ->
  exists cl', asciiLower cl' = cl /\ Contains s cl'.
Proof.
  unfold asciiLower. intros [a [b E]].
  apply map_eq_app in E. destruct E as [a' [r [-> [_ E]]]].
  apply map_eq_app in E. destruct E as [cl' [b' [-> [E _]]]].
  exists cl'. split; [exact E | now exists a', b'].
Qed.

Lemma DelimitedAt_NoCloserInside (closes : list (N -> bool))
  (isClose : jsstring -> Prop) (l : jsstring) (col : nat) (o inner c : jsstring) :
  (forall cl, isClose cl -> sat closes cl) ->
  DelimitedAt closes l col o inner c ->
  exists pre post,
    l = pre ++ o ++ inner ++ c ++ post
    /\ col = List.length pre
    /\ noTerminator inner
    /\ NoCloserInside isClose inner (c ++ post).
Proof.
  intros Hclose [pre [post [Hl [Hc [Hlt Hmin]]]]].
  exists pre, post. repeat split; try assumption.
  intros a b E Hb cl t E' Hcl. apply (Hmin a b E Hb cl t E'). now apply Hclose.
Qed.

Lemma NoCloserInside_not_Contains (isClose : jsstring -> Prop)
  (inner tail cl : jsstring) :
  NoCloserInside isClose inner tail -> isClose cl -> cl <> [] ->
  ~ Contains inner cl.
Proof.
  intros Hno Hcl Hne [a [b E]].
  apply (Hno a (cl ++ b) E) with (cl := cl) (t := b ++ tail).
  - intros H. apply app_eq_nil in H. now destruct H.
  - now rewrite <- app_assoc.
  - exact Hcl.
Qed.

(** The highlights of one line. *)
Lemma highlight_line_shape (i : nat) (l : jsstring) (it : ParsedItem) :
  In it (parseLine i l) -> type it = highlight ->
  exists pre o c post,
    l = pre ++ o ++ text it ++ c ++ post
    /\ ch it = List.length pre
    /\ matchLength it = List.length o + List.length (text it) + List.length c
    /\ noTerminator (text it)
    /\ ( (o = js "==" /\ c = js "=="
          /\ NoCloserInside (fun cl => cl = js "==") (text it) (c ++ post))
         \/ (asciiLower o = js "<mark>" /\ asciiLower c = js "</mark>"
             /\ NoCloserInside (fun cl => asciiLower cl = js "</mark>")
                  (text it) (c ++ post)) ).
Proof.
  intros Hin Ht.
  apply parseLine_cases in Hin. destruct Hin as [H | [H | H]].
  2:{ destruct H as [m [_ ->]]. discriminate. }
  2:{ destruct H as [m [_ ->]]. discriminate. }
  destruct H as [m [_ [-> [Hm | Hm]]]]; cbn [text ch matchLength line] in *.
  - rewrite reHighlight_delimited in Hm. apply matchAll_delimited in Hm.
    destruct Hm as [o [c [Ho [Hc [Hd Hlen]]]]].
    apply (sat_literal ["="; "="]%char) in Ho.
    apply (sat_literal ["="; "="]%char) in Hc.
    apply (@DelimitedAt_NoCloserInside _ (fun cl => cl = js "==")) in Hd.
    2:{ intros cl ->. now apply (sat_literal ["="; "="]%char). }
    destruct Hd as [pre [post [Hl [Hcol [Hlt Hno]]]]].
    exists pre, o, c, post. repeat split; try assumption. left. auto.
  - rewrite reMark_delimited in Hm. apply matchAll_delimited in Hm.
    destruct Hm as [o [c [Ho [Hc [Hd Hlen]]]]].
    apply (@DelimitedAt_NoCloserInside _ (fun cl => asciiLower cl = js "</mark>"))
      in Hd.
    2:{ intros cl Hcl. now apply sat_markClose. }
    destruct Hd as [pre [post [Hl [Hcol [Hlt Hno]]]]].
    exists pre, o, c, post. repeat split; try assumption. right.
    split; [now apply sat_markOpen|]. split; [now apply sat_markClose | exact Hno].
Qed.

(** X4: a Highlight record is a faithful picture of its place in the
    document: from its column on, its line reads an opening delimiter, the
    record's text, and a closing delimiter, which together are as long as
    [matchLength]; the delimiters are [==] and [==], or [<mark>] and
    [</mark>] in any mix of cases; the text holds no line terminator, and
    the match ends at the first closing delimiter: none starts at a column
    inside the text (not even one that ends behind the text), so the text
    contains none either. *)
Theorem highlight_record_span :
  forall (content : jsstring) (it : ParsedItem),
    In it (parseContent content) -> type it = highlight ->
    exists l pre o c post,
      nth_error (splitOn 10 content) (line it) = Some l
      /\ l = pre ++ o ++ text it ++ c ++ post
      /\ ch it = List.length pre
      /\ SpanAt l (ch it) o (text it) c
      /\ matchLength it = List.length o + List.length (text it) + List.length c
      /\ noTerminator (text it)
      /\ ( (o = js "==" /\ c = js "=="
            /\ NoCloserInside (fun cl => cl = js "==") (text it) (c ++ post)
            /\ ~ Contains (text it) (js "=="))
           \/ (asciiLower o = js "<mark>" /\ asciiLower c = js "</mark>"
               /\ NoCloserInside (fun cl => asciiLower cl = js "</mark>")
                    (text it) (c ++ post)
               /\ ~ Contains (asciiLower (text it)) (js "</mark>")) ).
Proof.
  intros content it Hin Ht. apply parseLines_In in Hin.
  destruct Hin as [i [l [Hl Hin]]]. cbn [Nat.add] in Hin.
  pose proof (parseLine_line _ _ _ Hin) as Hline.
  destruct (highlight_line_shape _ _ _ Hin Ht)
    as [pre [o [c [post [El [Hcol [Hlen [Hlt Hd]]]]]]]].
  exists l, pre, o, c, post. rewrite Hline.
  split; [exact Hl|]. split; [exact El|]. split; [exact Hcol|].
  split; [now exists pre, post|]. split; [exact Hlen|]. split; [exact Hlt|].
  destruct Hd as [[Ho [Hc Hno]] | [Ho [Hc Hno]]]; [left | right].
  - repeat split; try assumption.
    apply (NoCloserInside_not_Contains Hno); [reflexivity | discriminate].
  - repeat split; try assumption.
    intros Hcon. apply asciiLower_Contains in Hcon.
    destruct Hcon as [cl [Hcl Hcon]]. revert Hcon.
    apply (NoCloserInside_not_Contains Hno); [exact Hcl|].
    intros ->. discriminate.
Qed.

Lemma highlight_record_span_witness :
  In (mkItem highlight (js "x") 0 2 14) (parseContent (js "a <MARK>x</mark> b"))
  /\ exists l o c,
       nth_error (splitOn 10 (js "a <MARK>x</mark> b")) 0 = Some l
       /\ SpanAt l 2 o (js "x") c
       /\ 14 = List.length o + 1 + List.length c.
Proof.
  split; [vm_compute; tauto|].
  destruct (highlight_record_span (js "a <MARK>x</mark> b")
              (mkItem highlight (js "x") 0 2 14) ltac:(vm_compute; tauto) eq_refl)
    as [l [pre [o [c [post [H1 [_ [_ [H2 [H3 _]]]]]]]]]].
  exists l, o, c. repeat split; assumption.
Defined.

Lemma dropWhile_split (p : N -> bool) (s : jsstring) :
  exists a, s = a ++ dropWhile p s /\ Forall (fun c => p c = true) a.
Proof.
  induction s as [|c s [a [E Ha]]]; cbn.
  - exists []. split; [reflexivity | constructor].
  - destruct (p c) eqn:Hc.
    + exists (c :: a). cbn. split; [now rewrite <- E | now constructor].
    + exists []. split; [reflexivity | constructor].
Qed.

(** [trim] removes a run of white space at each end and nothing else. *)
Lemma trim_split (s : jsstring) :
  exists a b, s = a ++ trim s ++ b /\ allSpace a /\ allSpace b.
Proof.
  unfold trim, trimEnd, trimStart.
  destruct (dropWhile_split isWhiteSpace s) as [a [Ea Ha]].
  destruct (dropWhile_split isWhiteSpace (rev (dropWhile isWhiteSpace s)))
    as [b [Eb Hb]].
  exists a, (rev b). split; [|split; [exact Ha | now apply Forall_rev]].
  rewrite Ea at 1. f_equal.
  rewrite <- rev_app_distr, <- Eb. symmetry. apply rev_involutive.
Qed.

(** X5: a Comment record is a faithful picture of its place in the
    document: from its column on, its line reads an opening delimiter, white
    space, the record's text, white space, and a closing delimiter, which
    together are as long as [matchLength]; the delimiters are [%%] and [%%],
    or [<!--] and [-->]; what stands between them holds no line terminator
    and no closing delimiter. *)
Theorem comment_record_span :
  forall (content : jsstring) (it : ParsedItem),
    In it (parseContent content) -> type it = comment ->
    exists l o a b c,
      nth_error (splitOn 10 content) (line it) = Some l
      /\ SpanAt l (ch it) o (a ++ text it ++ b) c
      /\ allSpace a /\ allSpace b
      /\ matchLength it
         = List.length o + List.length (a ++ text it ++ b) + List.length c
      /\ noTerminator (a ++ text it ++ b)
      /\ ( (o = js "%%" /\ c = js "%%"
            /\ ~ Contains (a ++ text it ++ b) (js "%%"))
           \/ (o = js "<!--" /\ c = js "-->"
               /\ ~ Contains (a ++ text it ++ b) (js "-->")) ).
Proof.
  intros content it Hin Ht. apply parseLines_In in Hin.
  destruct Hin as [i [l [Hl Hin]]]. cbn [Nat.add] in Hin. exists l.
  apply parseLine_cases in Hin. destruct Hin as [H | [H | H]].
  1:{ destruct H as [m [_ [-> _]]]. discriminate. }
  2:{ destruct H as [m [_ ->]]. discriminate. }
  destruct H as [m [Hm ->]]; cbn [text ch matchLength line] in *.
  destruct (trim_split (group l m 1)) as [a [b [E [Ha Hb]]]].
  destruct Hm as [Hm | Hm].
  - rewrite reComment_delimited in Hm. apply matchAll_delimited in Hm.
    destruct Hm as [o [c [Ho [Hc [Hd Hlen]]]]].
    apply (sat_literal ["%"; "%"]%char) in Ho.
    pose proof (DelimitedAt_no_close Hd ltac:(discriminate)
                  (proj2 (sat_literal ["%"; "%"]%char (js "%%")) eq_refl)) as Hno.
    apply (sat_literal ["%"; "%"]%char) in Hc.
    destruct (DelimitedAt_SpanAt Hd) as [Hspan Hlt].
    exists o, a, b, c. rewrite <- E. repeat split; try assumption. left. auto.
  - rewrite reHtmlComment_delimited in Hm. apply matchAll_delimited in Hm.
    destruct Hm as [o [c [Ho [Hc [Hd Hlen]]]]].
    apply (sat_literal ["<"; "!"; "-"; "-"]%char) in Ho.
    pose proof (DelimitedAt_no_close Hd ltac:(discriminate)
                  (proj2 (sat_literal ["-"; "-"; ">"]%char (js "-->")) eq_refl)) as Hno.
    apply (sat_literal ["-"; "-"; ">"]%char) in Hc.
    destruct (DelimitedAt_SpanAt Hd) as [Hspan Hlt].
    exists o, a, b, c. rewrite <- E. repeat split; try assumption. right. auto.
Qed.

Lemma comment_record_span_witness :
  In (mkItem comment (js "todo") 0 2 13) (parseContent (js "a <!-- todo --> b"))
  /\ exists l o a b c,
       nth_error (splitOn 10 (js "a <!-- todo --> b")) 0 = Some l
       /\ SpanAt l 2 o (a ++ js "todo" ++ b) c
       /\ allSpace a /\ allSpace b.
Proof.
  split; [vm_compute; tauto|].
  destruct (comment_record_span (js "a <!-- todo --> b")
              (mkItem comment (js "todo") 0 2 13) ltac:(vm_compute; tauto) eq_refl)
    as [l [o [a [b [c [H1 [H2 [H3 [H4 _]]]]]]]]].
  exists l, o, a, b, c. repeat split; assumption.
Defined.

(* ------------------------------------------------------------------------- *)
(** ** Footnote definitions on any line *)

(** A greedy star in front of a continuation that cannot fail takes every
    character of its class. *)
Lemma star_greedy_max (p : N -> bool) (k : jsstring -> nat -> option outcome)
  (s : jsstring) :
  (forall s' pos', k s' pos' <> None) ->
  forall pos o,
    star true p k s pos = Some o ->
    exists used rest,
      s = used ++ rest
      /\ Forall (fun c => p c = true) used
      /\ k rest (pos + List.length used) = Some o
      /\ match rest with [] => True | c :: _ => p c = false end.
Proof.
  intros Hk. induction s as [|c s IH]; intros pos o H; cbn [star] in H.
  - exists [], []. cbn. rewrite Nat.add_0_r. auto.
  - destruct (p c) eqn:Hc.
    + destruct (star true p k s (S pos)) as [o'|] eqn:Hs.
      * injection H as ->. destruct (IH _ _ Hs) as [used [rest [-> [Hu [Hr Hmax]]]]].
        exists (c :: used), rest. cbn. rewrite Nat.add_succ_r.
        repeat split; [now constructor | assumption | assumption].
      * apply star_None in Hs. now apply Hk in Hs.
    + exists [], (c :: s). cbn. rewrite Nat.add_0_r. auto.
Qed.

Lemma run_footnote_shape (s : jsstring) (pos e : nat) (ms : list nat) :
  run reFootnote s pos [] = Some (e, ms) ->
  exists id ws body rest,
    s = js "[^" ++ id ++ js "]:" ++ ws ++ body ++ rest
    /\ id <> []
    /\ Forall (fun c => notRBracket c = true) id
    /\ allSpace ws
    /\ noTerminator body
    /\ noLeadingSpace (body ++ rest) = true
    /\ match rest with [] => True | c :: _ => isLineTerminator c = true end
    /\ e = pos + 4 + List.length id + List.length ws + List.length body
    /\ ms = [pos + 2; pos + 2 + List.length id;
             pos + 4 + List.length id + List.length ws; e].
Proof.
  intros H. unfold reFootnote in H.
  apply run_chr_inv in H. destruct H as [s1 [-> H]].
  apply run_chr_inv in H. destruct H as [s2 [-> H]].
  rewrite run_Mark_eq in H.
  apply run_One_inv in H. destruct H as [c [s3 [-> [Hc H]]]].
  rewrite run_Star_eq in H.
  apply star_inv in H. destruct H as [id' [r1 [-> [Hid H]]]]. cbv beta in H.
  rewrite run_Mark_eq in H.
  apply run_chr_inv in H. destruct H as [r2 [-> H]].
  apply run_chr_inv in H. destruct H as [r3 [-> H]].
  rewrite run_Star_eq in H.
  apply star_greedy_max in H.
  2:{ intros s' pos'. rewrite run_Mark_eq, run_Star_eq. intros E.
      apply star_None in E. discriminate. }
  destruct H as [ws [r4 [-> [Hws [H Hwmax]]]]].
  rewrite run_Mark_eq, run_Star_eq in H.
  apply star_greedy_max in H; [|discriminate].
  destruct H as [body [rest [-> [Hbody [H Hbmax]]]]].
  cbn in H. injection H as <- <-.
  exists (c :: id'), ws, body, rest. cbn [js list_ascii_of_string map app].
  split; [reflexivity|]. split; [discriminate|]. split; [now constructor|].
  split; [exact Hws|]. split; [now apply dot_not_terminator|].
  split.
  { destruct body as [|b body]; cbn [app] in *.
    - destruct rest as [|x rest]; [reflexivity|]. cbn. now rewrite Hwmax.
    - cbn. now rewrite Hwmax. }
  split.
  { destruct rest as [|x rest]; [exact I|]. unfold dot in Hbmax.
    now apply negb_false_iff in Hbmax. }
  cbn [List.length]. split; [lia|]. cbn. repeat f_equal; lia.
Qed.

(** X6: a Footnote record is a faithful picture of its place in the
    document: from its column on, its line reads [[^], a non-empty
    identifier without closing bracket, [\]:], a run of white space and a
    body, which together are as long as [matchLength]; the text is [[^],
    the identifier, [\]:], ONE blank and the body, whatever white space the
    line has there; the body holds no line terminator, does not start with
    white space, and ends at the end of the line or in front of a line
    terminator. *)
Theorem footnote_record_span :
  forall (content : jsstring) (it : ParsedItem),
    In it (parseContent content) -> type it = footnote ->
    exists l id ws body,
      nth_error (splitOn 10 content) (line it) = Some l
      /\ SpanAt l (ch it) (js "[^" ++ id ++ js "]:" ++ ws) body []
      /\ text it = js "[^" ++ id ++ js "]: " ++ body
      /\ matchLength it = 4 + List.length id + List.length ws + List.length body
      /\ id <> [] /\ Forall (fun c => notRBracket c = true) id
      /\ allSpace ws /\ noTerminator body /\ noLeadingSpace body = true
      /\ (ch it + matchLength it = List.length l
          \/ exists c, nth_error l (ch it + matchLength it) = Some c
                       /\ isLineTerminator c = true).
Proof.
  intros content it Hin Ht. apply parseLines_In in Hin.
  destruct Hin as [i [l [Hl Hin]]]. cbn [Nat.add] in Hin. exists l.
  apply parseLine_cases in Hin. destruct Hin as [H | [H | H]].
  1:{ destruct H as [m [_ [-> _]]]. discriminate. }
  1:{ destruct H as [m [_ ->]]. discriminate. }
  destruct H as [m [Hm ->]]; cbn [text ch matchLength line] in *.
  apply scan_In in Hm. destruct Hm as [k [Hk [Hi Hr]]]. cbn [Nat.add] in Hi, Hr.
  apply run_footnote_shape in Hr.
  destruct Hr as [id [ws [body [rest [Hs [Hne [Hid [Hws [Hb [Hlead [Hrest [He Hms]]]]]]]]]]]].
  assert (Hcut0 : exists pre, l = pre ++ skipn k l /\ List.length pre = k).
  { exists (firstn k l). split; [symmetry; apply firstn_skipn|].
    apply firstn_length_le; lia. }
  destruct Hcut0 as [pre [El Hpre]]. rewrite Hs in El.
  assert (H1 : group l m 1 = id).
  { unfold group. rewrite Hms. cbn [nth Nat.mul Nat.add Nat.sub].
    rewrite El at 1. rewrite (app_assoc pre (js "[^")).
    replace (k + 2) with (List.length (pre ++ js "[^"))
      by (rewrite length_app; cbn; lia).
    apply substring_middle. }
  assert (H2 : group l m 2 = body).
  { unfold group. rewrite Hms. cbn [nth Nat.mul Nat.add Nat.sub].
    rewrite He. rewrite El at 1.
    replace (pre ++ js "[^" ++ id ++ js "]:" ++ ws ++ body ++ rest)
      with ((pre ++ js "[^" ++ id ++ js "]:" ++ ws) ++ body ++ rest)
      by (now rewrite <- !app_assoc).
    replace (k + 4 + List.length id + List.length ws)
      with (List.length (pre ++ js "[^" ++ id ++ js "]:" ++ ws))
      by (rewrite !length_app; cbn; lia).
    apply substring_middle. }
  assert (Hlen : m_length m = 4 + List.length id + List.length ws + List.length body)
    by (unfold m_length; lia).
  exists id, ws, body. rewrite H1, H2, Hlen.
  split; [exact Hl|]. split.
  { exists pre, rest. split; [|lia]. rewrite El at 1. cbn [app].
    now rewrite <- !app_assoc. }
  split; [reflexivity|]. split; [reflexivity|].
  split; [exact Hne|]. split; [exact Hid|]. split; [exact Hws|]. split; [exact Hb|].
  split.
  { destruct body as [|b body]; [reflexivity | exact Hlead]. }
  assert (Ecut : l = (pre ++ js "[^" ++ id ++ js "]:" ++ ws ++ body) ++ rest)
    by (rewrite El at 1; now rewrite <- !app_assoc).
  assert (Hcut : List.length (pre ++ js "[^" ++ id ++ js "]:" ++ ws ++ body)
                 = m_index m + (4 + List.length id + List.length ws + List.length body))
    by (rewrite !length_app; cbn; lia).
  destruct rest as [|c rest].
  - left. rewrite Ecut, app_nil_r. now rewrite Hcut.
  - right. exists c. split; [|exact Hrest].
    rewrite Ecut at 1. rewrite nth_error_app2 by lia.
    rewrite Hcut, Nat.sub_diag. reflexivity.
Qed.

Lemma footnote_record_span_witness :
  In (mkItem footnote (js "[^n]: far") 0 2 12) (parseContent (js "a [^n]:    far"))
  /\ exists l id ws body : jsstring,
       nth_error (splitOn 10 (js "a [^n]:    far")) 0 = Some l
       /\ js "[^n]: far" = js "[^" ++ id ++ js "]: " ++ body
       /\ 12 = 4 + List.length id + List.length ws + List.length body.
Proof.
  split; [vm_compute; tauto|].
  destruct (footnote_record_span (js "a [^n]:    far")
              (mkItem footnote (js "[^n]: far") 0 2 12) ltac:(vm_compute; tauto) eq_refl)
    as [l [id [ws [body [H1 [_ [H3 [H4 _]]]]]]]].
  exists l, id, ws, body. repeat split; assumption.
Defined.


(* ========================================================================= *)
(** * Further properties of the sort helper *)

Section SortGeneric.
Variable A : Type.
Variable cmp : A -> A -> Z.

Hypothesis cmp_total : forall a b, (0 < cmp a b)%Z -> (cmp b a <= 0)%Z.

Lemma insertBy_sorted (x : A) (l : list A) :
  Sorted (cmpLe cmp) l -> Sorted (cmpLe cmp) (insertBy cmp x l).
Proof.
  induction 1 as [|y l Hs IH Hy]; cbn; [repeat constructor|].
  destruct (Z.leb_spec (cmp x y) 0) as [Hle | Hgt].
  - repeat constructor; assumption.
  - constructor; [assumption|].
    destruct l as [|z l]; cbn; [constructor; now apply cmp_total|].
    inversion Hy; subst.
    destruct (cmp x z <=? 0)%Z; constructor; [now apply cmp_total | assumption].
Qed.

Lemma sortBy_sorted_total (l : list A) : Sorted (cmpLe cmp) (sortBy cmp l).
Proof. induction l; cbn; [constructor | now apply insertBy_sorted]. Qed.
End SortGeneric.

Lemma sortBy_fixes (A : Type) (cmp : A -> A -> Z) (l : list A) :
  Sorted (cmpLe cmp) l -> sortBy cmp l = l.
Proof.
  induction 1 as [|x l Hs IH Hx]; cbn; [reflexivity|].
  rewrite IH. destruct Hx as [|y l Hxy]; cbn; [reflexivity|].
  unfold cmpLe in Hxy. apply Z.leb_le in Hxy. now rewrite Hxy.
Qed.

Lemma sortBy_idempotent (A : Type) (cmp : A -> A -> Z) (l : list A) :
  (forall a b, (0 < cmp a b)%Z -> (cmp b a <= 0)%Z) ->
  sortBy cmp (sortBy cmp l) = sortBy cmp l.
Proof. intros H. apply sortBy_fixes. now apply sortBy_sorted_total. Qed.

(** Stability: the elements of a class on which the comparator never is
    positive keep their order. *)
Lemma insertBy_filter (A : Type) (cmp : A -> A -> Z) (sel : A -> bool) (x : A)
  (l : list A) :
  (forall a b, sel a = true -> sel b = true -> (cmp a b <= 0)%Z) ->
  filter sel (insertBy cmp x l) = filter sel (x :: l).
Proof.
  intros Hsel. induction l as [|y l IH]; [reflexivity|]. cbn [insertBy].
  destruct (Z.leb_spec (cmp x y) 0) as [Hle | Hgt]; [reflexivity|].
  cbn [filter] in *. rewrite IH.
  destruct (sel x) eqn:Hx, (sel y) eqn:Hy; try reflexivity.
  specialize (Hsel x y Hx Hy). lia.
Qed.

Lemma sortBy_filter (A : Type) (cmp : A -> A -> Z) (sel : A -> bool) (l : list A) :
  (forall a b, sel a = true -> sel b = true -> (cmp a b <= 0)%Z) ->
  filter sel (sortBy cmp l) = filter sel l.
Proof.
  intros Hsel. induction l as [|x l IH]; [reflexivity|]. cbn [sortBy].
  rewrite insertBy_filter by assumption. cbn [filter]. now rewrite IH.
Qed.

Lemma sortItems_cases (lc : jsstring -> jsstring -> Z) (items : list ParsedItem)
  (order : SortOrder) :
  sortItems lc items order = items
  \/ exists cmp, sortItems lc items order = sortBy cmp items
       /\ (cmp = cmpLineAsc \/ cmp = cmpLineDesc
           \/ cmp = (fun a b => lc (text a) (text b))
           \/ cmp = (fun a b => lc (text b) (text a))).
Proof.
  unfold sortItems.
  destruct (order =? "line-asc")%string; [right; eauto|].
  destruct (order =? "line-desc")%string; [right; eauto|].
  destruct (order =? "a-z")%string; [right; eauto 6|].
  destruct (order =? "z-a")%string; [right; eauto 6|]. now left.
Qed.

(** X7: whatever the order and the collation, sorting neither drops nor
    adds nor duplicates a record: the result is a rearrangement of the
    input. *)
Theorem sortItems_rearranges :
  forall (localeCompare : jsstring -> jsstring -> Z)
         (items : list ParsedItem) (order : SortOrder),
    Permutation (sortItems localeCompare items order) items
    /\ List.length (sortItems localeCompare items order) = List.length items.
Proof.
  intros lc items order.
  assert (H : Permutation (sortItems lc items order) items).
  { destruct (sortItems_cases lc items order) as [-> | [cmp [-> _]]];
      [reflexivity | apply sortBy_perm]. }
  split; [exact H | now apply Permutation_length].
Qed.

Lemma cmpLineAsc_le (a b : ParsedItem) :
  (cmpLineAsc a b <= 0)%Z <-> lineThenColumn a b.
Proof.
  unfold cmpLineAsc, jsOr, lineThenColumn.
  destruct (Z.eqb_spec (Z.of_nat (line a) - Z.of_nat (line b)) 0); lia.
Qed.

Lemma cmpLineDesc_le (a b : ParsedItem) :
  (cmpLineDesc a b <= 0)%Z <-> lineThenColumnDesc a b.
Proof.
  unfold cmpLineDesc, jsOr, lineThenColumnDesc.
  destruct (Z.eqb_spec (Z.of_nat (line b) - Z.of_nat (line a)) 0); lia.
Qed.

Lemma Sorted_strong (A : Type) (R R' : A -> A -> Prop) (l : list A) :
  (forall a b, R a b -> R' a b) ->
  (forall a b c, R' a b -> R' b c -> R' a c) ->
  Sorted R l -> StronglySorted R' l.
Proof.
  intros Himp Htrans Hs.
  assert (Hs' : Sorted R' l).
  { induction Hs as [|a l Hs IH Hhd]; constructor; [assumption|].
    destruct Hhd; constructor. now apply Himp. }
  apply Sorted_StronglySorted; [|exact Hs'].
  intros a b c. apply Htrans.
Qed.

(** X8: under [line-asc] every record stands in front of all records of a
    later line and of all records of its line that start further right (or
    at the same column); under [line-desc] it is the other way round. *)
Theorem line_orders_sort :
  forall (localeCompare : jsstring -> jsstring -> Z) (items : list ParsedItem),
    StronglySorted lineThenColumn (sortItems localeCompare items "line-asc")
    /\ StronglySorted lineThenColumnDesc (sortItems localeCompare items "line-desc").
Proof.
  intros lc items. split.
  - change (sortItems lc items "line-asc") with (sortBy cmpLineAsc items).
    apply Sorted_strong with (R := cmpLe cmpLineAsc).
    + intros a b. apply cmpLineAsc_le.
    + unfold lineThenColumn. intros a b c. lia.
    + apply sortBy_sorted_total. intros a b. rewrite cmpLineAsc_le.
      unfold cmpLineAsc, jsOr, lineThenColumn.
      destruct (Z.eqb_spec (Z.of_nat (line a) - Z.of_nat (line b)) 0); lia.
  - change (sortItems lc items "line-desc") with (sortBy cmpLineDesc items).
    apply Sorted_strong with (R := cmpLe cmpLineDesc).
    + intros a b. apply cmpLineDesc_le.
    + unfold lineThenColumnDesc. intros a b c. lia.
    + apply sortBy_sorted_total. intros a b. rewrite cmpLineDesc_le.
      unfold cmpLineDesc, jsOr, lineThenColumnDesc.
      destruct (Z.eqb_spec (Z.of_nat (line b) - Z.of_nat (line a)) 0); lia.
Qed.

(** X9: the line orders are stable: records that start at the same line
    and column (a highlight wrapping a comment, say) keep the order the
    parser gave them. *)
Theorem line_orders_stable :
  forall (localeCompare : jsstring -> jsstring -> Z) (items : list ParsedItem)
         (n c : nat),
    filter (atPosition n c) (sortItems localeCompare items "line-asc")
    = filter (atPosition n c) items
    /\ filter (atPosition n c) (sortItems localeCompare items "line-desc")
       = filter (atPosition n c) items.
Proof.
  intros lc items n c.
  assert (Hpos : forall a b, atPosition n c a = true -> atPosition n c b = true ->
                   line a = line b /\ ch a = ch b).
  { unfold atPosition. intros a b Ha Hb.
    apply andb_true_iff in Ha, Hb. rewrite !Nat.eqb_eq in Ha, Hb. lia. }
  split.
  - change (sortItems lc items "line-asc") with (sortBy cmpLineAsc items).
    apply sortBy_filter. intros a b Ha Hb. apply cmpLineAsc_le.
    destruct (Hpos a b Ha Hb). unfold lineThenColumn. lia.
  - change (sortItems lc items "line-desc") with (sortBy cmpLineDesc items).
    apply sortBy_filter. intros a b Ha Hb. apply cmpLineDesc_le.
    destruct (Hpos a b Ha Hb). unfold lineThenColumnDesc. lia.
Qed.

Lemma compareUnits_flip (a : jsstring) :
  forall b, (0 < compareUnits a b)%Z -> (compareUnits b a <= 0)%Z.
Proof.
  induction a as [|x a IH]; intros [|y b]; cbn; try lia.
  destruct (N.ltb_spec x y), (N.ltb_spec y x); try lia. apply IH.
Qed.

(** X10: sorting a sorted list again changes nothing, for every order,
    provided the collation never ranks two texts each behind the other. *)
Theorem sortItems_idempotent :
  forall (localeCompare : jsstring -> jsstring -> Z),
    (forall s t, (0 < localeCompare s t)%Z -> (localeCompare t s <= 0)%Z) ->
    forall (items : list ParsedItem) (order : SortOrder),
      sortItems localeCompare (sortItems localeCompare items order) order
      = sortItems localeCompare items order.
Proof.
  intros lc Hlc items order. unfold sortItems.
  destruct (order =? "line-asc")%string.
  { apply sortBy_idempotent. intros a b. rewrite cmpLineAsc_le.
    unfold cmpLineAsc, jsOr, lineThenColumn.
    destruct (Z.eqb_spec (Z.of_nat (line a) - Z.of_nat (line b)) 0); lia. }
  destruct (order =? "line-desc")%string.
  { apply sortBy_idempotent. intros a b. rewrite cmpLineDesc_le.
    unfold cmpLineDesc, jsOr, lineThenColumnDesc.
    destruct (Z.eqb_spec (Z.of_nat (line b) - Z.of_nat (line a)) 0); lia. }
  destruct (order =? "a-z")%string.
  { apply sortBy_idempotent. intros a b. apply Hlc. }
  destruct (order =? "z-a")%string.
  { apply sortBy_idempotent. intros a b. apply Hlc. }
  reflexivity.
Qed.

Lemma sortItems_idempotent_witness :
  (forall s t, (0 < asciiCompare s t)%Z -> (asciiCompare t s <= 0)%Z)
  /\ sortItems asciiCompare (sortItems asciiCompare (parseContent example1) "z-a") "z-a"
     = sortItems asciiCompare (parseContent example1) "z-a".
Proof.
  assert (H : forall s t, (0 < asciiCompare s t)%Z -> (asciiCompare t s <= 0)%Z)
    by (intros s t; apply compareUnits_flip).
  split; [exact H|].
  exact (sortItems_idempotent asciiCompare H (parseContent example1) "z-a").
Defined.


(** X11: under [a-z] no row is directly followed by a row whose text the
    collation ranks strictly in front of it, and under [z-a] none by a row
    ranked strictly behind it, provided the collation never ranks two texts
    each behind the other. *)
Theorem alphabetical_orders_sort :
  forall (localeCompare : jsstring -> jsstring -> Z),
    (forall s t, (0 < localeCompare s t)%Z -> (localeCompare t s <= 0)%Z) ->
    forall (items : list ParsedItem),
      Sorted (fun a b => (localeCompare (text a) (text b) <= 0)%Z)
             (sortItems localeCompare items "a-z")
      /\ Sorted (fun a b => (localeCompare (text b) (text a) <= 0)%Z)
                (sortItems localeCompare items "z-a").
Proof.
  intros lc Hlc items. split.
  - change (sortItems lc items "a-z")
      with (sortBy (fun a b => lc (text a) (text b)) items).
    apply (@sortBy_sorted_total _ (fun a b => lc (text a) (text b))).
    intros a b. apply Hlc.
  - change (sortItems lc items "z-a")
      with (sortBy (fun a b => lc (text b) (text a)) items).
    apply (@sortBy_sorted_total _ (fun a b => lc (text b) (text a))).
    intros a b. apply Hlc.
Qed.

Lemma alphabetical_orders_sort_witness :
  (forall s t, (0 < asciiCompare s t)%Z -> (asciiCompare t s <= 0)%Z)
  /\ Sorted (fun a b => (asciiCompare (text a) (text b) <= 0)%Z)
            (sortItems asciiCompare (parseContent example1) "a-z").
Proof.
  assert (H : forall s t, (0 < asciiCompare s t)%Z -> (asciiCompare t s <= 0)%Z)
    by (intros s t; apply compareUnits_flip).
  split; [exact H|].
  exact (proj1 (alphabetical_orders_sort asciiCompare H (parseContent example1))).
Defined.

(* ========================================================================= *)
(** * Further properties of the sidebar *)

Lemma sortItems_In (lc : jsstring -> jsstring -> Z) (items : list ParsedItem)
  (order : SortOrder) (r : ParsedItem) :
  In r (sortItems lc items order) <-> In r items.
Proof.
  destruct (sortItems_cases lc items order) as [-> | [cmp [-> _]]]; [reflexivity|].
  split; apply Permutation_in; [|symmetry]; apply sortBy_perm.
Qed.

Lemma sortItems_length (lc : jsstring -> jsstring -> Z) (items : list ParsedItem)
  (order : SortOrder) :
  List.length (sortItems lc items order) = List.length items.
Proof.
  destruct (sortItems_cases lc items order) as [-> | [cmp [-> _]]]; [reflexivity|].
  apply Permutation_length, sortBy_perm.
Qed.

Lemma filterItems_nil (tl : jsstring -> jsstring) (q : jsstring) :
  filterItems tl [] q = [].
Proof. unfold filterItems. now destruct (0 <? List.length (normalizeQuery tl q)). Qed.

Lemma filterItems_In (tl : jsstring -> jsstring) (items : list ParsedItem)
  (q : jsstring) (r : ParsedItem) :
  In r (filterItems tl items q) -> In r items.
Proof.
  unfold filterItems. destruct (0 <? List.length (normalizeQuery tl q)); [|trivial].
  intros H. now apply filter_In in H.
Qed.

Lemma filterItems_empty_query (tl : jsstring -> jsstring) (items : list ParsedItem)
  (q : jsstring) :
  filterItems tl items q = [] -> items <> [] -> (0 <? List.length (normalizeQuery tl q)) = true.
Proof.
  unfold filterItems. destruct (0 <? List.length (normalizeQuery tl q)); [reflexivity|].
  intros -> H. now elim H.
Qed.

(** X12: the three empty states.  Without an active note the sidebar asks
    to open one.  With a note without any record it says so, whatever the
    search text and the settings.  With records none of which passes the
    search it says "No matching items.".  In every other case it shows
    sections and no message. *)
Theorem empty_states :
  forall (toLowerCase : jsstring -> jsstring)
         (localeCompare : jsstring -> jsstring -> Z)
         (settings : HighlightsSidebarSettings) (searchQuery : jsstring),
    renderContent toLowerCase localeCompare settings searchQuery None
      = EmptyMessage "Open a note to see its highlights, comments, and footnotes."
    /\ forall content,
         let items := parseContent content in
         let shown := renderContent toLowerCase localeCompare settings searchQuery
                        (Some content) in
         (items = [] ->
            shown = EmptyMessage "No highlights, comments, or footnotes found.")
         /\ (items <> [] -> filterItems toLowerCase items searchQuery = [] ->
               shown = EmptyMessage "No matching items.")
         /\ (filterItems toLowerCase items searchQuery <> [] ->
               exists secs, shown = Sections secs).
Proof.
  intros tl lc settings q. split; [reflexivity|].
  intros content items shown. subst shown. unfold renderContent, renderSections.
  fold items. split; [|split].
  - intros ->. now rewrite filterItems_nil.
  - intros Hne Hf. rewrite Hf.
    rewrite (@filterItems_empty_query tl items q Hf Hne).
    destruct items; [contradiction | reflexivity].
  - intros Hf. apply length_zero_nil in Hf. rewrite Hf. cbn [andb]. eauto.
Qed.

Lemma empty_states_witness :
  parseContent (js "plain") = []
  /\ renderContent asciiLower asciiCompare DEFAULT_SETTINGS (js "x") (Some (js "plain"))
     = EmptyMessage "No highlights, comments, or footnotes found."
  /\ renderContent asciiLower asciiCompare DEFAULT_SETTINGS (js "zzz") (Some example1)
     = EmptyMessage "No matching items.".
Proof.
  destruct (empty_states asciiLower asciiCompare DEFAULT_SETTINGS (js "x")) as [_ H1].
  destruct (empty_states asciiLower asciiCompare DEFAULT_SETTINGS (js "zzz")) as [_ H2].
  split; [reflexivity|]. split.
  - apply (proj1 (H1 (js "plain"))). reflexivity.
  - apply (proj1 (proj2 (H2 example1))); [vm_compute; discriminate | reflexivity].
Defined.

Lemma groupOf_nil (t : ItemType) : groupOf [] t = [].
Proof. reflexivity. Qed.

Lemma renderSection_shape (lc : jsstring -> jsstring -> Z)
  (settings : HighlightsSidebarSettings) (filtered : list ParsedItem)
  (sec : SectionMeta) :
  (renderSection lc settings filtered sec = []
   /\ (isSectionVisible settings (meta_type sec) = false
       \/ groupOf filtered (meta_type sec) = []))
  \/ (exists v, renderSection lc settings filtered sec = [v]
                /\ isSectionVisible settings (meta_type sec) = true
                /\ sv_type v = meta_type sec
                /\ sv_count v = List.length (groupOf filtered (meta_type sec))
                /\ sv_count v = List.length (sv_rows v)
                /\ 0 < sv_count v
                /\ forall r, In r (sv_rows v) <->
                             In r filtered /\ type r = meta_type sec).
Proof.
  unfold renderSection.
  destruct (isSectionVisible settings (meta_type sec)); cbn [negb]; [|left; auto].
  destruct (List.length (groupOf filtered (meta_type sec)) =? 0) eqn:E.
  - left. apply Nat.eqb_eq, length_zero_iff_nil in E. auto.
  - right. eexists. split; [reflexivity|]. cbn.
    apply Nat.eqb_neq in E.
    split; [reflexivity|]. split; [reflexivity|]. split; [reflexivity|].
    split; [now rewrite sortItems_length|]. split; [lia|].
    intros r. rewrite sortItems_In. unfold groupOf. rewrite filter_In.
    destruct (type r), (meta_type sec); cbn; intuition congruence.
Qed.

Lemma renderSections_sections (tl : jsstring -> jsstring)
  (lc : jsstring -> jsstring -> Z) (settings : HighlightsSidebarSettings)
  (q : jsstring) (allItems : list ParsedItem) :
  sectionsOf (renderSections tl lc settings q allItems)
  = flat_map (renderSection lc settings (filterItems tl allItems q)) sectionMeta.
Proof.
  unfold renderSections.
  destruct (filterItems tl allItems q) as [|r f] eqn:E; [|reflexivity].
  assert (H : flat_map (renderSection lc settings []) sectionMeta = []).
  { cbn. unfold renderSection. cbn.
    now destruct (showHighlights settings), (showComments settings),
      (showFootnotes settings). }
  rewrite H. cbn [List.length Nat.eqb andb].
  destruct (List.length allItems =? 0); [reflexivity|].
  now destruct (0 <? List.length (normalizeQuery tl q)).
Qed.

Lemma rowsOf_sections (r : Rendered) : rowsOf r = flat_map (@sv_rows) (sectionsOf r).
Proof. now destruct r. Qed.

(** X13: the rows of the sidebar are exactly the records that pass the
    search and belong to a visible category: nothing else is listed and
    none of them is left out, whatever the sort orders. *)
Theorem rows_are_visible_matches :
  forall (toLowerCase : jsstring -> jsstring)
         (localeCompare : jsstring -> jsstring -> Z)
         (settings : HighlightsSidebarSettings)
         (searchQuery content : jsstring) (r : ParsedItem),
    In r (rowsOf (renderContent toLowerCase localeCompare settings searchQuery
                    (Some content)))
    <-> In r (filterItems toLowerCase (parseContent content) searchQuery)
        /\ isSectionVisible settings (type r) = true.
Proof.
  intros tl lc settings q content r. unfold renderContent.
  rewrite rowsOf_sections, renderSections_sections.
  set (filtered := filterItems tl (parseContent content) q).
  rewrite in_flat_map. split.
  - intros [v [Hv Hr]]. apply in_flat_map in Hv. destruct Hv as [sec [_ Hv]].
    destruct (renderSection_shape lc settings filtered sec)
      as [[E _] | [v' [E [Hvis [_ [_ [_ [_ Hrows]]]]]]]]; rewrite E in Hv.
    + destruct Hv.
    + destruct Hv as [<- | []]. apply Hrows in Hr. destruct Hr as [Hin ->].
      now split.
  - intros [Hin Hvis]. destruct (meta_of_type (type r)) as [sec [Hsec Ht]].
    destruct (renderSection_shape lc settings filtered sec)
      as [[E [Hhid | Hnil]] | [v [E [_ [_ [_ [_ [_ Hrows]]]]]]]].
    + rewrite Ht in Hhid. congruence.
    + exfalso. assert (Hg : In r (groupOf filtered (meta_type sec))).
      { unfold groupOf. apply filter_In. split; [assumption|].
        rewrite Ht. now destruct (type r). }
      rewrite Hnil in Hg. destruct Hg.
    + exists v. split.
      * apply in_flat_map. exists sec. split; [assumption|]. rewrite E. now left.
      * apply Hrows. now split.
Qed.

Lemma Subseq_three (A : Type) (a b c : A) (x y z : list A) :
  (x = [] \/ x = [a]) -> (y = [] \/ y = [b]) -> (z = [] \/ z = [c]) ->
  Subseq (x ++ y ++ z) [a; b; c].
Proof.
  intros [-> | ->] [-> | ->] [-> | ->]; cbn;
    repeat first [apply Subseq_keep | apply Subseq_skip | apply Subseq_nil].
Qed.

(** X14: the sections come in the fixed order Highlights, Comments,
    Footnotes, each category at most once. *)
Theorem sections_in_fixed_order :
  forall (toLowerCase : jsstring -> jsstring)
         (localeCompare : jsstring -> jsstring -> Z)
         (settings : HighlightsSidebarSettings)
         (searchQuery : jsstring) (activeContent : option jsstring),
    Subseq (sectionTypes (renderContent toLowerCase localeCompare settings
                            searchQuery activeContent))
           [highlight; comment; footnote].
Proof.
  intros tl lc settings q [content|]; [|cbn; repeat constructor].
  unfold renderContent.
  replace (sectionTypes (renderSections tl lc settings q (parseContent content)))
    with (map (@sv_type) (sectionsOf (renderSections tl lc settings q
                                        (parseContent content))))
    by (now destruct (renderSections tl lc settings q (parseContent content))).
  rewrite renderSections_sections.
  set (filtered := filterItems tl (parseContent content) q).
  unfold sectionMeta. cbn [flat_map]. rewrite app_nil_r, !map_app.
  apply Subseq_three;
    match goal with
    | |- context [renderSection lc settings filtered ?sec] =>
        destruct (renderSection_shape lc settings filtered sec)
          as [[E _] | [v [E [_ [Ht _]]]]]; rewrite E; cbn [map];
          [now left | right; now rewrite Ht]
    end.
Qed.

Lemma groupOf_lengths (filtered : list ParsedItem) :
  List.length (groupOf filtered highlight) + List.length (groupOf filtered comment)
  + List.length (groupOf filtered footnote) = List.length filtered.
Proof.
  unfold groupOf. induction filtered as [|r f IH]; [reflexivity|].
  cbn [filter List.length]. destruct (type r); cbn [ItemType_eqb List.length]; lia.
Qed.

Lemma renderSection_count (lc : jsstring -> jsstring -> Z)
  (settings : HighlightsSidebarSettings) (filtered : list ParsedItem)
  (sec : SectionMeta) :
  list_sum (map (@sv_count) (renderSection lc settings filtered sec))
  = if isSectionVisible settings (meta_type sec)
    then List.length (groupOf filtered (meta_type sec)) else 0.
Proof.
  destruct (renderSection_shape lc settings filtered sec)
    as [[E [Hhid | Hnil]] | [v [E [Hvis [_ [Hc _]]]]]]; rewrite E; cbn.
  - now rewrite Hhid.
  - rewrite Hnil. now destruct (isSectionVisible settings (meta_type sec)).
  - rewrite Hvis. lia.
Qed.

(** X15: the number in a section header is the number of rows below it and
    is never zero; the numbers of all headers add up to at most the number
    of records that pass the search, and to exactly that number when all
    three categories are visible. *)
Theorem header_counts :
  forall (toLowerCase : jsstring -> jsstring)
         (localeCompare : jsstring -> jsstring -> Z)
         (settings : HighlightsSidebarSettings)
         (searchQuery content : jsstring),
    let shown := renderContent toLowerCase localeCompare settings searchQuery
                   (Some content) in
    let filtered := filterItems toLowerCase (parseContent content) searchQuery in
    (forall v, In v (sectionsOf shown) ->
               sv_count v = List.length (sv_rows v) /\ 0 < sv_count v)
    /\ totalCount shown <= List.length filtered
    /\ ((forall t, isSectionVisible settings t = true) ->
        totalCount shown = List.length filtered).
Proof.
  intros tl lc settings q content shown filtered. subst shown.
  unfold renderContent.
  replace (totalCount (renderSections tl lc settings q (parseContent content)))
    with (list_sum (map (@sv_count) (sectionsOf (renderSections tl lc settings q
                                                   (parseContent content)))))
    by (now destruct (renderSections tl lc settings q (parseContent content))).
  rewrite renderSections_sections. fold filtered. split.
  - intros v Hv. apply in_flat_map in Hv. destruct Hv as [sec [_ Hv]].
    destruct (renderSection_shape lc settings filtered sec)
      as [[E _] | [v' [E [_ [_ [_ [Hc [Hpos _]]]]]]]]; rewrite E in Hv.
    + destruct Hv.
    + destruct Hv as [<- | []]. now split.
  - unfold sectionMeta. cbn [flat_map]. rewrite app_nil_r, !map_app, !list_sum_app.
    rewrite !renderSection_count. cbn [meta_type].
    pose proof (groupOf_lengths filtered) as Hsum. split.
    + destruct (isSectionVisible settings highlight),
        (isSectionVisible settings comment), (isSectionVisible settings footnote); lia.
    + intros Hall. rewrite !Hall. lia.
Qed.

Lemma header_counts_witness :
  (forall t, isSectionVisible DEFAULT_SETTINGS t = true)
  /\ totalCount (renderContent asciiLower asciiCompare DEFAULT_SETTINGS (js "")
                   (Some example1)) = 4.
Proof.
  assert (H : forall t, isSectionVisible DEFAULT_SETTINGS t = true)
    by (intros []; reflexivity).
  split; [exact H|].
  rewrite (proj2 (proj2 (header_counts asciiLower asciiCompare DEFAULT_SETTINGS
                           (js "") example1)) H).
  reflexivity.
Defined.

(** X16: when records pass the search but every category that has one is
    hidden, the sidebar shows neither a section nor a message; conversely an
    empty list of sections only arises that way. *)
Theorem nothing_shown_when_hidden :
  forall (toLowerCase : jsstring -> jsstring)
         (localeCompare : jsstring -> jsstring -> Z)
         (settings : HighlightsSidebarSettings)
         (searchQuery content : jsstring),
    let filtered := filterItems toLowerCase (parseContent content) searchQuery in
    filtered <> [] ->
    (renderContent toLowerCase localeCompare settings searchQuery (Some content)
       = Sections []
     <-> forall r, In r filtered -> isSectionVisible settings (type r) = false).
Proof.
  intros tl lc settings q content filtered Hne.
  unfold renderContent, renderSections. fold filtered.
  apply length_zero_nil in Hne. rewrite Hne. cbn [andb]. split.
  - intros E0 r Hr.
    assert (E : flat_map (renderSection lc settings filtered) sectionMeta = [])
      by congruence.
    destruct (isSectionVisible settings (type r)) eqn:Hvis; [|reflexivity].
    exfalso. destruct (meta_of_type (type r)) as [sec [Hsec Ht]].
    assert (Hin : In (mkSection (meta_type sec) (meta_label sec)
                        (List.length (groupOf filtered (meta_type sec)))
                        (strOr (getPer (sectionSorts settings) (meta_type sec))
                               (defaultSort settings))
                        (getPer (sectionsCollapsed settings) (meta_type sec))
                        (sortItems lc (groupOf filtered (meta_type sec))
                           (strOr (getPer (sectionSorts settings) (meta_type sec))
                                  (defaultSort settings))))
                    (flat_map (renderSection lc settings filtered) sectionMeta)).
    { apply in_flat_map. exists sec. split; [assumption|].
      apply renderSection_In. rewrite Ht. split; [assumption|]. split; [|reflexivity].
      intros Hnil. assert (Hg : In r (groupOf filtered (type r))).
      { unfold groupOf. apply filter_In. split; [assumption|]. now destruct (type r). }
      rewrite Hnil in Hg. destruct Hg. }
    rewrite E in Hin. destruct Hin.
  - intros Hhid. f_equal.
    destruct (flat_map (renderSection lc settings filtered) sectionMeta)
      as [|v secs] eqn:E; [reflexivity|]. exfalso.
    assert (Hv : In v (flat_map (renderSection lc settings filtered) sectionMeta))
      by (rewrite E; now left).
    apply in_flat_map in Hv. destruct Hv as [sec [_ Hv]].
    apply renderSection_In in Hv. destruct Hv as [Hvis [Hg _]].
    destruct (groupOf filtered (meta_type sec)) as [|r g] eqn:Eg; [now elim Hg|].
    assert (Hr : In r (groupOf filtered (meta_type sec))) by (rewrite Eg; now left).
    unfold groupOf in Hr. apply filter_In in Hr. destruct Hr as [Hr Ht].
    specialize (Hhid r Hr).
    destruct (type r), (meta_type sec); cbn in Ht; congruence.
Qed.

Lemma nothing_shown_when_hidden_witness :
  filterItems asciiLower (parseContent (js "==a==")) (js "") <> []
  /\ renderContent asciiLower asciiCompare
       (toggleSectionVisibility highlight DEFAULT_SETTINGS) (js "")
       (Some (js "==a==")) = Sections [].
Proof.
  split; [vm_compute; discriminate|].
  apply (proj2 (nothing_shown_when_hidden asciiLower asciiCompare
                  (toggleSectionVisibility highlight DEFAULT_SETTINGS)
                  (js "") (js "==a==") ltac:(vm_compute; discriminate))).
  intros r Hr. vm_compute in Hr. destruct Hr as [<- | []]. reflexivity.
Defined.

(** X17: a click on any row of the sidebar moves the cursor to the row's
    record, at (line, ch), scrolls to and selects the range from there to
    (line, ch + matchLength), and focuses the editor; that range is not empty
    and lies inside the record's line of the note the sidebar was rendered
    from; without an active note the click does nothing. *)
Theorem click_selects_inside_document :
  forall (toLowerCase : jsstring -> jsstring)
         (localeCompare : jsstring -> jsstring -> Z)
         (settings : HighlightsSidebarSettings)
         (searchQuery content : jsstring) (r : ParsedItem),
    In r (rowsOf (renderContent toLowerCase localeCompare settings searchQuery
                    (Some content))) ->
    scrollToItem None r = []
    /\ scrollToItem (Some content) r
       = [SetCursor (mkPos (line r) (ch r));
          ScrollIntoView (mkPos (line r) (ch r))
                         (mkPos (line r) (ch r + matchLength r)) true;
          SetSelection (mkPos (line r) (ch r))
                       (mkPos (line r) (ch r + matchLength r));
          Focus]
    /\ selectionInside content (mkPos (line r) (ch r))
                       (mkPos (line r) (ch r + matchLength r))
    /\ exists anchor head,
         scrollToItem (Some content) r
         = [SetCursor anchor; ScrollIntoView anchor head true;
            SetSelection anchor head; Focus]
         /\ anchor = mkPos (line r) (ch r)
         /\ head = mkPos (line r) (ch r + matchLength r)
         /\ selectionInside content anchor head.
Proof.
  intros tl lc settings q content r Hr. split; [reflexivity|].
  split; [reflexivity|].
  assert (Hin : In r (parseContent content)).
  { unfold renderContent in Hr. rewrite rowsOf_sections, renderSections_sections in Hr.
    apply in_flat_map in Hr. destruct Hr as [v [Hv Hr]].
    apply in_flat_map in Hv. destruct Hv as [sec [_ Hv]].
    apply renderSection_In in Hv. destruct Hv as [_ [_ ->]]. cbn in Hr.
    apply sortItems_In in Hr. unfold groupOf in Hr. apply filter_In in Hr.
    destruct Hr as [Hr _]. now apply filterItems_In in Hr. }
  apply parseContent_In in Hin. destruct Hin as [l [Hl Hin]].
  apply parseLine_span in Hin.
  assert (Hsel : selectionInside content (mkPos (line r) (ch r))
                   (mkPos (line r) (ch r + matchLength r))).
  { exists l. cbn. split; [assumption|]. split; [reflexivity | lia]. }
  split; [exact Hsel|].
  exists (mkPos (line r) (ch r)), (mkPos (line r) (ch r + matchLength r)).
  repeat split. exact Hsel.
Qed.

Lemma click_selects_inside_document_witness :
  In (mkItem comment (js "note one") 1 0 12)
     (rowsOf (renderContent asciiLower asciiCompare DEFAULT_SETTINGS (js "note")
                (Some example1)))
  /\ selectionInside example1 (mkPos 1 0) (mkPos 1 12).
Proof.
  split; [vm_compute; tauto|].
  exact (proj1 (proj2 (proj2
           (click_selects_inside_document asciiLower asciiCompare DEFAULT_SETTINGS
              (js "note") example1 (mkItem comment (js "note one") 1 0 12)
              ltac:(vm_compute; tauto))))).
Defined.


(* ========================================================================= *)
(** * Further properties of the settings *)

(** X18: an integer font size inside 10..24 (what the slider, with its
    step of 1, and the default 13 give) stays inside under both commands:
    each moves it by one pixel and stops at the bound, and inside the range
    one command undoes the other. *)
Theorem font_size_stays_in_range :
  forall (s : HighlightsSidebarSettings),
    (10 <= fontSize s <= 24)%Z ->
    (10 <= fontSize (increaseFontSize s) <= 24)%Z
    /\ (10 <= fontSize (decreaseFontSize s) <= 24)%Z
    /\ fontSize (increaseFontSize s)
       = (if (fontSize s =? 24)%Z then 24 else fontSize s + 1)%Z
    /\ fontSize (decreaseFontSize s)
       = (if (fontSize s =? 10)%Z then 10 else fontSize s - 1)%Z
    /\ ((fontSize s < 24)%Z -> decreaseFontSize (increaseFontSize s) = s)
    /\ ((10 < fontSize s)%Z -> increaseFontSize (decreaseFontSize s) = s).
Proof.
  intros [fs sh sc sf ds col sorts] H. cbn in *.
  split; [lia|]. split; [lia|].
  split; [destruct (Z.eqb_spec fs 24); lia|].
  split; [destruct (Z.eqb_spec fs 10); lia|].
  unfold decreaseFontSize, increaseFontSize, withFontSize. cbn.
  split; intros Hlt; f_equal; lia.
Qed.

Lemma font_size_stays_in_range_witness :
  (10 <= fontSize DEFAULT_SETTINGS <= 24)%Z
  /\ decreaseFontSize (increaseFontSize DEFAULT_SETTINGS) = DEFAULT_SETTINGS.
Proof.
  assert (H : (10 <= fontSize DEFAULT_SETTINGS <= 24)%Z) by (cbn; lia).
  split; [exact H|].
  apply (proj1 (proj2 (proj2 (proj2 (proj2 (font_size_stays_in_range DEFAULT_SETTINGS H)))))).
  cbn. lia.
Defined.

(** X19: the visibility actions.  Toggling a category flips its
    visibility and no other one, and toggling twice restores the settings;
    "Show all sections" makes the three categories visible; a click on a
    section header flips the collapsed flag of that section only, and twice
    restores the settings.  None of them touches the font size or a sort
    order, and visibility and collapsing do not touch each other. *)
Theorem visibility_actions :
  forall (s : HighlightsSidebarSettings) (t : ItemType),
    (forall u, isSectionVisible (toggleSectionVisibility t s) u
               = if ItemType_eqb u t then negb (isSectionVisible s u)
                 else isSectionVisible s u)
    /\ toggleSectionVisibility t (toggleSectionVisibility t s) = s
    /\ (forall u, isSectionVisible (showAllSections s) u = true)
    /\ (forall u, getPer (sectionsCollapsed (toggleSectionCollapsed t s)) u
                  = if ItemType_eqb u t then negb (getPer (sectionsCollapsed s) u)
                    else getPer (sectionsCollapsed s) u)
    /\ toggleSectionCollapsed t (toggleSectionCollapsed t s) = s
    /\ sectionsCollapsed (toggleSectionVisibility t s) = sectionsCollapsed s
    /\ sectionsCollapsed (showAllSections s) = sectionsCollapsed s
    /\ (forall u, isSectionVisible (toggleSectionCollapsed t s) u
                  = isSectionVisible s u)
    /\ (forall f, In f [toggleSectionVisibility t; showAllSections;
                        toggleSectionCollapsed t] ->
                  fontSize (f s) = fontSize s
                  /\ defaultSort (f s) = defaultSort s
                  /\ sectionSorts (f s) = sectionSorts s).
Proof.
  intros [fs sh sc sf ds [c1 c2 c3] sorts] t.
  split; [intros u; destruct t, u; reflexivity|].
  split; [destruct t, sh, sc, sf; reflexivity|].
  split; [intros []; reflexivity|].
  split; [intros u; destruct t, u; reflexivity|].
  split; [destruct t, c1, c2, c3; reflexivity|].
  split; [destruct t; reflexivity|].
  split; [reflexivity|].
  split; [intros u; destruct t, u; reflexivity|].
  intros f [<- | [<- | [<- | []]]]; destruct t; cbn; auto.
Qed.

(** X20: what [saveSettings] stores, [loadSettings] gives back: saving and
    loading again reproduces the settings, whatever they are. *)
Theorem save_load_round_trip :
  forall (s : HighlightsSidebarSettings),
    loadSettings (Some (saveSettings s)) = s.
Proof. intros [fs sh sc sf ds [c1 c2 c3] [o1 o2 o3]]. reflexivity. Qed.

(** X21: loading repairs key by key.  Nothing stored gives the defaults.
    A key of a nested record that is stored is taken, one that is missing
    gets its own default: [false] for a collapsed flag and ["line-asc"] for
    a section's order, also when the stored data carries another default
    order; so with stored orders missing, every section is rendered by
    line, whatever [defaultSort] was stored. *)
Theorem load_repairs_per_key :
  loadSettings None = DEFAULT_SETTINGS
  /\ forall (d : PersistedData) (t : ItemType),
       let s := loadSettings (Some d) in
       getPer (sectionSorts s) t
       = match d_sectionSorts d with
         | Some r => match getPer r t with Some o => o | None => "line-asc"%string end
         | None => "line-asc"%string
         end
       /\ getPer (sectionsCollapsed s) t
          = match d_sectionsCollapsed d with
            | Some r => match getPer r t with Some b => b | None => false end
            | None => false
            end
       /\ isSectionVisible s t
          = match (match t with
                   | highlight => d_showHighlights d
                   | comment => d_showComments d
                   | footnote => d_showFootnotes d
                   end) with
            | Some b => b
            | None => true
            end
       /\ (d_sectionSorts d = None -> effectiveSort s t = "line-asc"%string).
Proof.
  split; [reflexivity|]. intros d t s. subst s. unfold effectiveSort. cbn.
  destruct d as [fs sh sc sf ds col sorts]. cbn.
  split; [destruct sorts as [[a b c]|], t; cbn; try reflexivity;
          match goal with |- context [assignKey _ ?x] => now destruct x end|].
  split; [destruct col as [[a b c]|], t; cbn; try reflexivity;
          match goal with |- context [assignKey _ ?x] => now destruct x end|].
  split; [destruct t; cbn;
          match goal with |- context [assignKey _ ?x] => now destruct x end|].
  intros ->. now destruct t.
Qed.

Lemma load_repairs_per_key_witness :
  d_sectionSorts (mkData None None None None (Some "z-a"%string) None None) = None
  /\ effectiveSort (loadSettings (Some (mkData None None None None
                                          (Some "z-a"%string) None None)))
       comment = "line-asc"%string.
Proof.
  split; [reflexivity|].
  apply (proj2 load_repairs_per_key
           (mkData None None None None (Some "z-a"%string) None None) comment).
  reflexivity.
Defined.

Lemma filter_flat_map (A B : Type) (p : B -> bool) (f : A -> list B) (l : list A) :
  filter p (flat_map f l) = flat_map (fun x => filter p (f x)) l.
Proof.
  induction l as [|x l IH]; cbn; [reflexivity|]. now rewrite filter_app, IH.
Qed.

Lemma renderSection_other (lc : jsstring -> jsstring -> Z)
  (s s' : HighlightsSidebarSettings) (filtered : list ParsedItem)
  (t : ItemType) (sec : SectionMeta) :
  (forall u, u <> t -> isSectionVisible s' u = isSectionVisible s u
                       /\ effectiveSort s' u = effectiveSort s u
                       /\ getPer (sectionsCollapsed s') u
                          = getPer (sectionsCollapsed s) u) ->
  filter (fun v => negb (ItemType_eqb (sv_type v) t))
         (renderSection lc s' filtered sec)
  = filter (fun v => negb (ItemType_eqb (sv_type v) t))
           (renderSection lc s filtered sec).
Proof.
  intros Hsame. unfold renderSection. fold (effectiveSort s (meta_type sec)).
  fold (effectiveSort s' (meta_type sec)).
  destruct (ItemType_eqb (meta_type sec) t) eqn:Et.
  - destruct (isSectionVisible s' (meta_type sec)), (isSectionVisible s (meta_type sec));
      cbn [negb];
      destruct (List.length (groupOf filtered (meta_type sec)) =? 0);
      cbn [filter sv_type]; rewrite ?Et; reflexivity.
  - assert (Hne : meta_type sec <> t)
      by (intros E; rewrite E in Et; destruct t; discriminate).
    destruct (Hsame _ Hne) as [-> [-> ->]]. reflexivity.
Qed.

Lemma render_other (tl : jsstring -> jsstring) (lc : jsstring -> jsstring -> Z)
  (s s' : HighlightsSidebarSettings) (q : jsstring) (content : option jsstring)
  (t : ItemType) :
  (forall u, u <> t -> isSectionVisible s' u = isSectionVisible s u
                       /\ effectiveSort s' u = effectiveSort s u
                       /\ getPer (sectionsCollapsed s') u
                          = getPer (sectionsCollapsed s) u) ->
  otherSections t (renderContent tl lc s' q content)
  = otherSections t (renderContent tl lc s q content).
Proof.
  intros Hsame. destruct content as [content|]; [|reflexivity].
  unfold otherSections, renderContent. rewrite !renderSections_sections.
  rewrite !filter_flat_map. apply flat_map_ext. intros sec.
  now apply renderSection_other.
Qed.

(** X22: an action on one section leaves the others as they are: picking a
    sort order for a section, toggling its visibility or collapsing it does
    not change the header, the count, the order or the rows of the sections
    of the two other categories. *)
Theorem section_actions_are_local :
  forall (toLowerCase : jsstring -> jsstring)
         (localeCompare : jsstring -> jsstring -> Z)
         (s : HighlightsSidebarSettings) (searchQuery : jsstring)
         (activeContent : option jsstring) (t : ItemType) (order : SortOrder),
    let shown := renderContent toLowerCase localeCompare s searchQuery activeContent in
    otherSections t (renderContent toLowerCase localeCompare
                       (onSectionSortPick t order s) searchQuery activeContent)
    = otherSections t shown
    /\ otherSections t (renderContent toLowerCase localeCompare
                          (toggleSectionVisibility t s) searchQuery activeContent)
       = otherSections t shown
    /\ otherSections t (renderContent toLowerCase localeCompare
                          (toggleSectionCollapsed t s) searchQuery activeContent)
       = otherSections t shown.
Proof.
  intros tl lc s q content t order shown. subst shown.
  destruct s as [fs sh sc sf ds [c1 c2 c3] [o1 o2 o3]].
  split; [|split]; apply render_other; intros u Hu;
    destruct t, u; try (now elim Hu); repeat split; reflexivity.
Qed.


(* ========================================================================= *)
(** * The search text and the first version of the view *)

Lemma asciiLowerChar_idempotent (c : N) :
  asciiLowerChar (asciiLowerChar c) = asciiLowerChar c.
Proof.
  unfold asciiLowerChar.
  destruct ((65 <=? c) && (c <=? 90))%N eqn:E; [|now rewrite E].
  apply andb_true_iff in E. destruct E as [E1 E2]. apply N.leb_le in E1.
  destruct (N.leb_spec (c + 32) 90) as [H | H]; [lia|].
  now rewrite andb_false_r.
Qed.

Lemma asciiLower_idempotent (s : jsstring) : asciiLower (asciiLower s) = asciiLower s.
Proof.
  unfold asciiLower. rewrite map_map. apply map_ext, asciiLowerChar_idempotent.
Qed.

(** X23: the search ignores the case of the search text: a search text and
    its lower-case form select the same records, provided lower-casing a
    lower-cased string changes nothing. *)
Theorem search_ignores_query_case :
  forall (toLowerCase : jsstring -> jsstring),
    (forall s, toLowerCase (toLowerCase s) = toLowerCase s) ->
    forall (records : list ParsedItem) (searchQuery : jsstring),
      filterItems toLowerCase records (toLowerCase searchQuery)
      = filterItems toLowerCase records searchQuery.
Proof.
  intros tl Hidem records q. unfold filterItems, normalizeQuery.
  now rewrite Hidem.
Qed.

Lemma search_ignores_query_case_witness :
  (forall s, asciiLower (asciiLower s) = asciiLower s)
  /\ filterItems asciiLower (parseContent example1) (js "note")
     = filterItems asciiLower (parseContent example1) (js "NoTe").
Proof.
  split; [exact asciiLower_idempotent|].
  exact (search_ignores_query_case asciiLower asciiLower_idempotent
           (parseContent example1) (js "NoTe")).
Defined.

Lemma Forall2_flat_map (A B C : Type) (R : B -> C -> Prop)
  (f : A -> list B) (g : A -> list C) (l : list A) :
  (forall x, Forall2 R (f x) (g x)) ->
  Forall2 R (flat_map f l) (flat_map g l).
Proof.
  intros H. induction l as [|x l IH]; cbn; [constructor|].
  apply Forall2_app; [apply H | exact IH].
Qed.

(** X24: the current view extends the first version: with no search text
    and all three categories visible it shows the same message, or the same
    sections with the same labels and counts, the rows of each section being
    the rows of the first version sorted by the section's order. *)
Theorem current_view_extends_first_version :
  forall (toLowerCase : jsstring -> jsstring)
         (localeCompare : jsstring -> jsstring -> Z)
         (settings : HighlightsSidebarSettings)
         (searchQuery : jsstring) (activeContent : option jsstring),
    normalizeQuery toLowerCase searchQuery = [] ->
    (forall t, isSectionVisible settings t = true) ->
    sameView localeCompare (renderContentV1 activeContent)
      (renderContent toLowerCase localeCompare settings searchQuery activeContent).
Proof.
  intros tl lc settings q [content|] Hq Hvis; [|reflexivity].
  unfold renderContentV1, renderContent, renderSections, filterItems.
  rewrite Hq. cbn [List.length Nat.ltb Nat.leb andb].
  destruct (List.length (parseContent content) =? 0) eqn:E; cbn [andb];
    [reflexivity|].
  cbn [sameView]. apply Forall2_flat_map. intros sec.
  unfold renderSectionV1, renderSection. rewrite Hvis. cbn [negb].
  destruct (List.length (groupOf (parseContent content) (meta_type sec)) =? 0);
    constructor; [|constructor].
  repeat split; reflexivity.
Qed.

Lemma current_view_extends_first_version_witness :
  normalizeQuery asciiLower (js "  ") = []
  /\ (forall t, isSectionVisible DEFAULT_SETTINGS t = true)
  /\ sameView asciiCompare (renderContentV1 (Some example1))
       (renderContent asciiLower asciiCompare DEFAULT_SETTINGS (js "  ")
          (Some example1)).
Proof.
  assert (H : forall t, isSectionVisible DEFAULT_SETTINGS t = true)
    by (intros []; reflexivity).
  split; [reflexivity|]. split; [exact H|].
  exact (current_view_extends_first_version asciiLower asciiCompare DEFAULT_SETTINGS
           (js "  ") (Some example1) eq_refl H).
Defined.

Lemma rows_are_visible_matches_witness :
  In (mkItem comment (js "note one") 1 0 12)
     (rowsOf (renderContent asciiLower asciiCompare DEFAULT_SETTINGS (js "note")
                (Some example1))).
Proof.
  apply (proj2 (rows_are_visible_matches asciiLower asciiCompare DEFAULT_SETTINGS
                  (js "note") example1 (mkItem comment (js "note one") 1 0 12))).
  split; [vm_compute; tauto | reflexivity].
Defined.


(* ========================================================================= *)
(** * The search text, trimmed *)

Lemma dropWhile_allSpace (a x : jsstring) :
  allSpace a -> dropWhile isWhiteSpace (a ++ x) = dropWhile isWhiteSpace x.
Proof.
  induction 1 as [|c a Hc Ha IH]; cbn [app dropWhile]; [reflexivity|].
  now rewrite Hc.
Qed.

Lemma dropWhile_noLeadingSpace (q : jsstring) :
  noLeadingSpace q = true -> dropWhile isWhiteSpace q = q.
Proof.
  destruct q as [|c q]; cbn; [reflexivity|]. intros H.
  apply negb_true_iff in H. now rewrite H.
Qed.

Lemma trim_IsTrimOf (s : jsstring) : IsTrimOf s (trim s).
Proof.
  destruct (trim_split s) as [a [b [E [Ha Hb]]]].
  exists a, b. repeat split; try assumption.
  - apply trim_noLeadingSpace.
  - apply trim_noTrailingSpace.
Qed.

(** The trimmed form of a string is unique, and [trim] computes it. *)
Lemma IsTrimOf_trim (s q : jsstring) : IsTrimOf s q -> q = trim s.
Proof.
  intros [a [b [-> [Ha [Hb [Hlead Htrail]]]]]].
  unfold trim, trimEnd, trimStart.
  rewrite dropWhile_allSpace by assumption.
  destruct q as [|c q].
  - cbn [app]. rewrite <- (app_nil_r b) at 1.
    rewrite dropWhile_allSpace by assumption. reflexivity.
  - rewrite (dropWhile_noLeadingSpace ((c :: q) ++ b))
      by (cbn in Hlead |- *; exact Hlead).
    rewrite rev_app_distr, dropWhile_allSpace by (now apply Forall_rev).
    unfold noTrailingSpace in Htrail.
    rewrite dropWhile_noLeadingSpace by assumption.
    symmetry. apply rev_involutive.
Qed.

(** C8: let [query] be the search text lower-cased and then trimmed, that
    is the one string without white space at either end that the
    lower-cased search text holds between two runs of white space.  When
    [query] is empty the filter returns the records unchanged; otherwise it
    keeps, in their order, exactly the records whose lower-cased text
    contains [query] as a substring; in both cases the result is a
    subsequence of the input. *)
Theorem filter_contract :
  forall (toLowerCase : jsstring -> jsstring)
         (records : list ParsedItem) (searchQuery : jsstring),
    let kept := filterItems toLowerCase records searchQuery in
    exists query,
      IsTrimOf (toLowerCase searchQuery) query
      /\ (forall q', IsTrimOf (toLowerCase searchQuery) q' -> q' = query)
      /\ query = normalizeQuery toLowerCase searchQuery
      /\ (query = [] -> kept = records)
      /\ (query <> [] ->
          kept = filter (fun r => includes (toLowerCase (text r)) query) records
          /\ forall r, In r kept <->
                       In r records /\ Contains (toLowerCase (text r)) query)
      /\ Subseq kept records.
Proof.
  intros toLowerCase records searchQuery kept.
  exists (trim (toLowerCase searchQuery)).
  split; [apply trim_IsTrimOf|].
  split; [intros q' Hq'; now apply IsTrimOf_trim|].
  split; [reflexivity|].
  subst kept. unfold filterItems, normalizeQuery.
  set (query := trim (toLowerCase searchQuery)).
  split; [intros ->; reflexivity|]. split.
  - intros Hq. destruct query as [|c q]; [contradiction|]. cbn [List.length Nat.ltb Nat.leb].
    split; [reflexivity|]. intros r. rewrite filter_In, includes_Contains. reflexivity.
  - destruct (0 <? List.length query); [apply Subseq_filter | apply Subseq_refl].
Qed.

Lemma filter_contract_witness :
  IsTrimOf (asciiLower (js "  ")) []
  /\ filterItems asciiLower (parseContent example1) (js "  ") = parseContent example1
  /\ IsTrimOf (asciiLower (js " NOTE ")) (js "note")
  /\ filterItems asciiLower (parseContent example1) (js " NOTE ")
     = [ mkItem comment (js "note one") 1 0 12 ].
Proof.
  assert (H1 : IsTrimOf (asciiLower (js "  ")) []).
  { exists (js "  "), []. vm_compute. repeat split; repeat constructor. }
  assert (H2 : IsTrimOf (asciiLower (js " NOTE ")) (js "note")).
  { exists (js " "), (js " "). vm_compute. repeat split; repeat constructor. }
  split; [exact H1|]. split.
  - destruct (filter_contract asciiLower (parseContent example1) (js "  "))
      as [query [_ [Hu [_ [Hempty _]]]]].
    apply Hempty. symmetry. now apply Hu.
  - split; [exact H2|].
    destruct (filter_contract asciiLower (parseContent example1) (js " NOTE "))
      as [query [_ [Hu [_ [_ [Hfull _]]]]]].
    pose proof (Hu _ H2) as E. subst query.
    rewrite (proj1 (Hfull ltac:(discriminate))).
    vm_compute. reflexivity.
Defined.


(* ========================================================================= *)
(** * What is trimmed and what is not *)

(** C4 (amended): for every document and every record of the parser: the
    text of a Comment has no leading and no trailing white space; the text
    of a Footnote has no leading white space; the text of a Highlight is
    exactly what stands between the opening and the closing delimiter in
    the line, nothing removed.  Nothing more is trimmed: there are Highlight
    texts that begin and end with white space and Footnote texts that end
    with white space. *)
Theorem comment_text_trimmed :
  (forall (content : jsstring) (it : ParsedItem),
     In it (parseContent content) ->
     (type it = comment ->
        noLeadingSpace (text it) = true /\ noTrailingSpace (text it) = true)
     /\ (type it = footnote -> noLeadingSpace (text it) = true)
     /\ (type it = highlight ->
         exists l pre o c post,
           nth_error (splitOn 10 content) (line it) = Some l
           /\ l = pre ++ o ++ text it ++ c ++ post
           /\ ch it = List.length pre
           /\ matchLength it
              = List.length o + List.length (text it) + List.length c
           /\ ((o = js "==" /\ c = js "==")
               \/ (asciiLower o = js "<mark>" /\ asciiLower c = js "</mark>"))))
  /\ (exists content it,
        In it (parseContent content) /\ type it = highlight
        /\ noLeadingSpace (text it) = false /\ noTrailingSpace (text it) = false)
  /\ (exists content it,
        In it (parseContent content) /\ type it = footnote
        /\ noTrailingSpace (text it) = false).
Proof.
  split; [|split].
  - intros content it Hin. unfold parseContent in Hin.
    apply parseLines_In in Hin. destruct Hin as [k [l [Hk Hin]]].
    cbn [Nat.add] in Hin. pose proof (parseLine_line _ _ _ Hin) as Hline.
    split; [|split].
    + intros Ht. apply parseLine_In in Hin. destruct Hin as [_ [H | [H | H]]].
      * destruct H as [Ht' _]. congruence.
      * destruct H as [_ [m [_ ->]]].
        split; [apply trim_noLeadingSpace | apply trim_noTrailingSpace].
      * destruct H as [m [_ ->]]. discriminate.
    + intros Ht. apply parseLine_In in Hin. destruct Hin as [_ [H | [H | H]]].
      * destruct H as [Ht' _]. congruence.
      * destruct H as [Ht' _]. congruence.
      * destruct H as [m [_ ->]]. reflexivity.
    + intros Ht.
      destruct (highlight_line_shape _ _ _ Hin Ht)
        as [pre [o [c [post [El [Hcol [Hlen [_ Hd]]]]]]]].
      exists l, pre, o, c, post. rewrite Hline.
      repeat (split; [assumption|]).
      destruct Hd as [[Ho [Hc _]] | [Ho [Hc _]]]; [left | right]; now split.
  - exists (js "== a =="), (mkItem highlight (js " a ") 0 0 7).
    vm_compute. tauto.
  - exists (js "[^1]: see  "), (mkItem footnote (js "[^1]: see  ") 0 0 11).
    vm_compute. tauto.
Qed.

Lemma comment_text_trimmed_witness :
  In (mkItem comment (js "c") 0 0 9) (parseContent (js "%%  c  %%"))
  /\ noLeadingSpace (js "c") = true /\ noTrailingSpace (js "c") = true.
Proof.
  split; [vm_compute; tauto|].
  apply (proj1 (proj1 comment_text_trimmed (js "%%  c  %%")
                  (mkItem comment (js "c") 0 0 9)
                  ltac:(vm_compute; tauto)) eq_refl).
Defined.

(* ========================================================================= *)
(** * The scan order of the parser and the [line-asc] sort *)

Lemma scan_index_sorted (its : list atom) (s : jsstring) :
  forall pos skip,
    StronglySorted (fun a b => m_index a < m_index b) (scan its s pos skip).
Proof.
  induction s as [|c s IH]; intros pos skip; cbn [scan].
  - destruct skip; [|constructor].
    destruct (run its [] pos []) as [[e ms]|]; repeat constructor.
  - destruct skip as [|sk]; [|apply IH].
    destruct (run its (c :: s) pos []) as [[e ms]|]; [|apply IH].
    constructor; [apply IH|].
    apply Forall_forall. intros m Hm. apply scan_In in Hm.
    destruct Hm as [k [_ [Hi _]]]. cbn. lia.
Qed.

Lemma skipn_head_nth_error (A : Type) (k : nat) (l : list A) (c : A) (r : list A) :
  skipn k l = c :: r -> nth_error l k = Some c.
Proof.
  revert l. induction k as [|k IH]; intros [|x l] H; cbn in *; try discriminate.
  - now injection H as -> _.
  - now apply IH.
Qed.

(** A match of a pattern that opens with a literal character starts at
    that character. *)
Lemma matchAll_first_char (a : ascii) (r : list atom) (l : jsstring) (m : rmatch) :
  In m (matchAll (chr a :: r) l) -> nth_error l (m_index m) = Some (cu a).
Proof.
  intros H. apply scan_In in H. destruct H as [k [_ [Hi Hr]]]. cbn in Hi.
  apply run_chr_inv in Hr. destruct Hr as [s' [Hs _]].
  rewrite Hi. now apply skipn_head_nth_error with s'.
Qed.

Lemma StronglySorted_map_In (A B : Type) (R : A -> A -> Prop) (R' : B -> B -> Prop)
  (f : A -> B) (l : list A) :
  (forall a b, In a l -> In b l -> R a b -> R' (f a) (f b)) ->
  StronglySorted R l -> StronglySorted R' (map f l).
Proof.
  intros H Hs. induction Hs as [|a l Hs IH Ha]; cbn; constructor.
  - apply IH. intros x y Hx Hy. apply H; now right.
  - apply Forall_forall. intros y Hy. apply in_map_iff in Hy.
    destruct Hy as [x [<- Hx]]. rewrite Forall_forall in Ha.
    apply H; [now left | now right | now apply Ha].
Qed.

(** The records of one loop: one rank, columns strictly increasing. *)
Lemma loop_sorted (l : jsstring) (its : list atom) (f : rmatch -> ParsedItem)
  (rk : nat) :
  (forall m, In m (matchAll its l) ->
             patternRank l (f m) = rk /\ ch (f m) = m_index m) ->
  StronglySorted (rankColumnBefore l) (map f (matchAll its l))
  /\ forall it, In it (map f (matchAll its l)) -> patternRank l it = rk.
Proof.
  intros H. split.
  - apply StronglySorted_map_In with (R := fun a b => m_index a < m_index b);
      [|apply scan_index_sorted].
    intros a b Ha Hb Hab. destruct (H a Ha) as [Ra Ca], (H b Hb) as [Rb Cb].
    right. split; [congruence | lia].
  - intros it Hit. apply in_map_iff in Hit. destruct Hit as [m [<- Hm]].
    now apply H.
Qed.

Lemma sorted_app_ranks (l : jsstring) (xs ys : list ParsedItem) (rk : nat) :
  StronglySorted (rankColumnBefore l) xs ->
  StronglySorted (rankColumnBefore l) ys ->
  (forall it, In it xs -> patternRank l it = rk) ->
  (forall it, In it ys -> rk < patternRank l it) ->
  StronglySorted (rankColumnBefore l) (xs ++ ys).
Proof.
  intros Hx Hy Hrx Hry. apply StronglySorted_app; try assumption.
  intros a b Ha Hb. left. rewrite (Hrx a Ha). now apply Hry.
Qed.

Lemma rank_of_first_char (l : jsstring) (t : ItemType) (txt : jsstring)
  (i col len : nat) (c : N) :
  nth_error l col = Some c ->
  patternRank l (mkItem t txt i col len)
  = match t with
    | highlight => if (c =? cu "=")%N then 0 else 1
    | comment => if (c =? cu "%")%N then 2 else 3
    | footnote => 4
    end.
Proof. intros H. unfold patternRank. cbn. rewrite H. now destruct t. Qed.

(** The records of one line come loop by loop, and within a loop from left
    to right. *)
Lemma parseLine_scan_order (i : nat) (l : jsstring) :
  StronglySorted (rankColumnBefore l) (parseLine i l).
Proof.
  unfold parseLine.
  destruct (@loop_sorted l reHighlight
              (fun m => mkItem highlight (group l m 1) i (m_index m) (m_length m)) 0)
    as [S0 R0].
  { intros m Hm. split; [|reflexivity].
    pose proof (@matchAll_first_char _ _ _ _ Hm) as Hc.
    now rewrite (@rank_of_first_char _ _ _ _ _ _ _ Hc). }
  destruct (@loop_sorted l reMark
              (fun m => mkItem highlight (group l m 1) i (m_index m) (m_length m)) 1)
    as [S1 R1].
  { intros m Hm. split; [|reflexivity].
    pose proof (@matchAll_first_char _ _ _ _ Hm) as Hc.
    now rewrite (@rank_of_first_char _ _ _ _ _ _ _ Hc). }
  destruct (@loop_sorted l reComment
              (fun m => mkItem comment (trim (group l m 1)) i (m_index m) (m_length m)) 2)
    as [S2 R2].
  { intros m Hm. split; [|reflexivity].
    pose proof (@matchAll_first_char _ _ _ _ Hm) as Hc.
    now rewrite (@rank_of_first_char _ _ _ _ _ _ _ Hc). }
  destruct (@loop_sorted l reHtmlComment
              (fun m => mkItem comment (trim (group l m 1)) i (m_index m) (m_length m)) 3)
    as [S3 R3].
  { intros m Hm. split; [|reflexivity].
    pose proof (@matchAll_first_char _ _ _ _ Hm) as Hc.
    now rewrite (@rank_of_first_char _ _ _ _ _ _ _ Hc). }
  destruct (@loop_sorted l reFootnote
              (fun m => mkItem footnote
                          (js "[^" ++ group l m 1 ++ js "]: " ++ group l m 2)
                          i (m_index m) (m_length m)) 4)
    as [S4 R4].
  { intros m Hm. split; reflexivity. }
  apply sorted_app_ranks with (rk := 0); [assumption | | assumption |].
  2:{ intros it Hit. rewrite !in_app_iff in Hit.
      destruct Hit as [H | [H | [H | H]]];
        [rewrite (R1 _ H) | rewrite (R2 _ H) | rewrite (R3 _ H) | rewrite (R4 _ H)];
        lia. }
  apply sorted_app_ranks with (rk := 1); [assumption | | assumption |].
  2:{ intros it Hit. rewrite !in_app_iff in Hit.
      destruct Hit as [H | [H | H]];
        [rewrite (R2 _ H) | rewrite (R3 _ H) | rewrite (R4 _ H)]; lia. }
  apply sorted_app_ranks with (rk := 2); [assumption | | assumption |].
  2:{ intros it Hit. rewrite !in_app_iff in Hit.
      destruct Hit as [H | H]; [rewrite (R3 _ H) | rewrite (R4 _ H)]; lia. }
  apply sorted_app_ranks with (rk := 3); [assumption | assumption | assumption |].
  intros it Hit. rewrite (R4 _ Hit). lia.
Qed.

Lemma nth_of_skipn (A : Type) (d : A) (n : nat) (l : list A) (x : A) (r : list A) :
  skipn n l = x :: r -> nth n l d = x /\ skipn (S n) l = r.
Proof.
  revert l. induction n as [|n IH]; intros [|y l] H; cbn in *; try discriminate.
  - injection H as -> ->. now split.
  - now apply IH.
Qed.

Lemma StronglySorted_impl_In (A : Type) (R R' : A -> A -> Prop) (l : list A) :
  (forall a b, In a l -> In b l -> R a b -> R' a b) ->
  StronglySorted R l -> StronglySorted R' l.
Proof.
  intros H Hs. rewrite <- (map_id l).
  now apply StronglySorted_map_In with (R := R).
Qed.

Lemma parseLines_scan_order (lines : list jsstring) :
  forall rest n,
    skipn n lines = rest ->
    StronglySorted (scanBefore lines) (parseLines n rest).
Proof.
  intros rest. induction rest as [|l rest IH]; intros n Hn; cbn [parseLines];
    [constructor|].
  destruct (nth_of_skipn [] _ _ Hn) as [Hl Hrest].
  apply StronglySorted_app.
  - apply StronglySorted_impl_In with (R := rankColumnBefore l);
      [|apply parseLine_scan_order].
    intros a b Ha Hb Hab. unfold scanBefore. right.
    rewrite (parseLine_line _ _ _ Ha), (parseLine_line _ _ _ Hb).
    split; [reflexivity|]. unfold jsstring in *. rewrite Hl. exact Hab.
  - now apply IH.
  - intros a b Ha Hb. left. apply parseLine_line in Ha.
    apply parseLines_line_ge in Hb. lia.
Qed.

Lemma In_order_cases (A : Type) (l : list A) (a b : A) :
  In a l -> In b l ->
  a = b
  \/ (forall R, StronglySorted R l -> R a b)
  \/ (forall R, StronglySorted R l -> R b a).
Proof.
  induction l as [|x l IH]; intros Ha Hb; [destruct Ha|].
  destruct Ha as [-> | Ha], Hb as [-> | Hb].
  - now left.
  - right; left. intros R HR. inversion HR as [|? ? _ Hall]; subst.
    rewrite Forall_forall in Hall. now apply Hall.
  - right; right. intros R HR. inversion HR as [|? ? _ Hall]; subst.
    rewrite Forall_forall in Hall. now apply Hall.
  - destruct (IH Ha Hb) as [E | [H | H]]; [now left | right; left | right; right];
      intros R HR; apply H; now inversion HR.
Qed.

Lemma scan_order_inColumnOrder (lines : list jsstring) (items : list ParsedItem) :
  StronglySorted (scanBefore lines) items ->
  noLaterLoopToTheLeft lines items ->
  inColumnOrder items = true.
Proof.
  induction 1 as [|a l Hs IH Ha]; intros Hno; [reflexivity|].
  destruct l as [|b l]; [reflexivity|]. cbn [inColumnOrder].
  apply andb_true_iff. split.
  - destruct (Nat.eqb_spec (line a) (line b)) as [E | _]; [|reflexivity].
    apply Nat.leb_le. inversion Ha as [|? ? Hab _]; subst.
    destruct Hab as [Hlt | [_ [Hrk | [_ Hch]]]]; [lia | | lia].
    apply Hno; [now left | right; now left | assumption | assumption].
  - apply IH. intros x y Hx Hy. apply Hno; now right.
Qed.

Lemma sorted_noLaterLoopToTheLeft (lines : list jsstring) (items : list ParsedItem) :
  StronglySorted (scanBefore lines) items ->
  Sorted lineAscLe items ->
  noLaterLoopToTheLeft lines items.
Proof.
  intros Hscan Hsorted a b Ha Hb Hline Hrk.
  assert (Hstrong : StronglySorted lineThenColumn items).
  { apply Sorted_strong with (R := lineAscLe); [| |exact Hsorted].
    - intros x y. apply cmpLineAsc_le.
    - unfold lineThenColumn. intros x y z. lia. }
  destruct (In_order_cases _ _ _ Ha Hb) as [E | [H | H]].
  - subst b. lia.
  - specialize (H _ Hstrong). unfold lineThenColumn in H. lia.
  - specialize (H _ Hscan). unfold scanBefore in H. rewrite <- Hline in H.
    destruct H as [H | [_ [H | [H _]]]]; lia.
Qed.

(** C3 (amended): for every document the parser's output is in scan order:
    by line, top to bottom; within a line loop by loop, in the order [==],
    [<mark>], [%%], HTML comment, footnote; within a loop by strictly
    increasing column.  Sorting it by [line-asc] rearranges it without
    changing the sequence of line numbers, and gives back the parser's
    output itself exactly when, on every line, the records were emitted in
    non-decreasing column order, that is exactly when no record of a later
    loop starts left of a record of an earlier loop on its line. *)
Theorem line_asc_on_parser_output :
  forall (localeCompare : jsstring -> jsstring -> Z) (content : jsstring),
    let items := parseContent content in
    let sorted := sortItems localeCompare items "line-asc" in
    Permutation sorted items
    /\ StronglySorted lineLe items
    /\ map (@line) sorted = map (@line) items
    /\ (sorted = items <-> inColumnOrder items = true)
    /\ StronglySorted (scanBefore (splitOn 10 content)) items
    /\ (sorted = items <-> noLaterLoopToTheLeft (splitOn 10 content) items).
Proof.
  intros lc content items sorted. subst sorted.
  rewrite sortItems_line_asc.
  assert (Hs : StronglySorted lineLe items) by apply parseLines_lines_sorted.
  assert (Hscan : StronglySorted (scanBefore (splitOn 10 content)) items)
    by (now apply parseLines_scan_order).
  assert (Hiff : sortBy cmpLineAsc items = items <-> inColumnOrder items = true).
  { rewrite (inColumnOrder_sorted Hs). split.
    - intros <-. apply sortBy_sorted.
    - apply sortBy_fixes_sorted. }
  split; [apply sortBy_perm|]. split; [exact Hs|].
  split; [now apply sort_keeps_lines|].
  split; [exact Hiff|]. split; [exact Hscan|].
  split.
  - intros E. apply sorted_noLaterLoopToTheLeft; [exact Hscan|].
    rewrite <- E. apply sortBy_sorted.
  - intros Hno. apply Hiff. now apply scan_order_inColumnOrder with (splitOn 10 content).
Qed.

Lemma line_asc_on_parser_output_witness :
  inColumnOrder (parseContent example1) = true
  /\ sortItems asciiCompare (parseContent example1) "line-asc" = parseContent example1.
Proof.
  split; [reflexivity|].
  apply (proj2 (proj1 (proj2 (proj2 (proj2
           (line_asc_on_parser_output asciiCompare example1)))))).
  reflexivity.
Defined.
